(** * A verification model of the calculator component

    The development embeds [src/components/Calculator.tsx]: the token model,
    the infix-to-postfix converter [toRPN], the postfix evaluator [evalRPN],
    the formatter [formatNumber] and the editing operations of the React
    component, seen as functions over the session state
    (display, tokens, justEvaluated).

    JavaScript numbers are IEEE-754 binary64 values, modelled by Rocq's
    primitive floats.  JavaScript arrays are lists in index order, so that
    [push] appends at the end and [pop] removes the last element.  Strings
    are sequences of 8-bit characters, which covers every text the component
    builds itself.  React runs one event handler at a time and renders
    before the next event, so a handler is a function from the state it
    closes over to the next state. *)

From Stdlib Require Import List String Ascii ZArith Lia Bool Arith Permutation.
From Stdlib Require Import Floats.
From Equations Require Import Equations.
Import ListNotations.

Set Default Goal Selector "!".

(** ** The part of the JavaScript runtime the component calls *)

Module JS.

(** *** Arrays *)

(** [xs.push(x)] *)
Definition push {A : Type} (xs : list A) (x : A) : list A := xs ++ [x].

(** [xs.pop()]: the removed last element ([None] for [undefined], on an
    empty array) and the array that is left. *)
Definition pop {A : Type} (xs : list A) : option A * list A :=
  match rev xs with
  | [] => (None, [])
  | x :: r => (Some x, rev r)
  end.

(** [xs[xs.length - 1]], guarded by [xs.length] as at every use in the
    component. *)
Definition last_elem {A : Type} (xs : list A) : option A := fst (pop xs).

(** [xs[i] = x] for an index inside the array (every assignment of the
    component is guarded so); the array is left as it is otherwise. *)
Fixpoint set_index {A : Type} (xs : list A) (i : nat) (x : A) : list A :=
  match xs, i with
  | [], _ => []
  | _ :: r, O => x :: r
  | y :: r, S j => y :: set_index r j x
  end.

(** *** Numbers *)

Definition isNaN (x : float) : bool := PrimFloat.is_nan x.

Definition isFinite (x : float) : bool := PrimFloat.is_finite x.

(** [Object.is(x, -0)] *)
Definition is_neg_zero (x : float) : bool :=
  match PrimFloat.classify x with
  | NZero => true
  | _ => false
  end.

(** *** Strings *)

(** [s.includes(c)] for a one-character [c] *)
Fixpoint includes (c : ascii) (s : string) : bool :=
  match s with
  | EmptyString => false
  | String d r => Ascii.eqb c d || includes c r
  end.

(** [s.startsWith(p)] *)
Definition startsWith (p s : string) : bool := String.prefix p s.

(** [s.slice(1)] *)
Definition slice_from_1 (s : string) : string :=
  String.substring 1 (String.length s - 1) s.

(** [s.slice(0, -1)] *)
Definition slice_drop_last (s : string) : string :=
  String.substring 0 (String.length s - 1) s.

(** *** Decimal numerals *)

Definition is_digit (c : ascii) : bool :=
  let n := nat_of_ascii c in (48 <=? n)%nat && (n <=? 57)%nat.

Definition digit_value (c : ascii) : Z := (Z.of_nat (nat_of_ascii c) - 48)%Z.

Definition decimal_value (ds : list ascii) : Z :=
  fold_left (fun acc c => (10 * acc + digit_value c)%Z) ds 0%Z.

(** The longest run of decimal digits at the start of [s], and what follows it. *)
Fixpoint span_digits (s : string) : list ascii * string :=
  match s with
  | EmptyString => ([], s)
  | String c r =>
      if is_digit c then let (ds, r') := span_digits r in (c :: ds, r')
      else ([], s)
  end.

(** The binary64 value nearest to [m * 10^e] (ties to even), with sign
    [neg].  Beyond [10^400] the value overflows and below [10^-400] it
    rounds to zero, which bounds the powers of ten that are computed. *)
Definition round_decimal (neg : bool) (m e : Z) : spec_float :=
  match m with
  | Zpos p =>
      if (400 <? e)%Z then S754_infinity neg
      else if (e + Z.log2 m + 1 <? -400)%Z then S754_zero neg
      else if (0 <=? e)%Z then
        binary_normalize prec emax (if neg then - (m * 10 ^ e) else m * 10 ^ e)%Z 0 false
      else
        match (10 ^ (- e))%Z with
        | Zpos q => SFdiv prec emax (S754_finite neg p 0) (S754_finite false q 0)
        | _ => S754_nan
        end
  | _ => S754_zero neg
  end.

Definition is_space (c : ascii) : bool :=
  let n := nat_of_ascii c in
  (n =? 32)%nat || ((9 <=? n)%nat && (n <=? 13)%nat).

Fixpoint trim_start (s : string) : string :=
  match s with
  | String c r => if is_space c then trim_start r else s
  | EmptyString => s
  end.

(** The value of an [ExponentPart] at the start of [s] (0 when there is none). *)
Definition exponent_part (s : string) : Z :=
  match s with
  | String c r =>
      if Ascii.eqb c "e" || Ascii.eqb c "E" then
        let '(neg, r') :=
          match r with
          | String "-" r' => (true, r')
          | String "+" r' => (false, r')
          | _ => (false, r)
          end in
        let (ds, _) := span_digits r' in
        match ds with
        | [] => 0%Z
        | _ => if neg then (- decimal_value ds)%Z else decimal_value ds
        end
      else 0%Z
  | EmptyString => 0%Z
  end.

(** [parseFloat(s)]: leading white space is skipped, the longest prefix that
    is a [StrDecimalLiteral] is read and rounded to the nearest binary64
    value; the result is NaN when no prefix is one. *)
Definition parseFloat (s : string) : float :=
  let s := trim_start s in
  let '(neg, s) :=
    match s with
    | String "-" r => (true, r)
    | String "+" r => (false, r)
    | _ => (false, s)
    end in
  if String.prefix "Infinity" s then (if neg then neg_infinity else infinity)
  else
    let (ip, r1) := span_digits s in
    let (fp, r2) :=
      match r1 with
      | String "." r => span_digits r
      | _ => ([], r1)
      end in
    match ip ++ fp with
    | [] => nan
    | ds =>
        SF2Prim (round_decimal neg (decimal_value ds)
                   (exponent_part r2 - Z.of_nat (List.length fp)))
    end.

(** *** Rendering numbers *)

Definition digit_char (d : Z) : ascii := ascii_of_nat (48 + Z.to_nat d).

Fixpoint digits_loop (fuel : nat) (z : Z) (acc : list ascii) : list ascii :=
  match fuel with
  | O => acc
  | S fuel' =>
      let acc' := digit_char (z mod 10) :: acc in
      if (z <? 10)%Z then acc' else digits_loop fuel' (z / 10)%Z acc'
  end.

(** The decimal digits of a natural number [z], most significant first.  A
    number has no more decimal digits than binary ones, which bounds the loop. *)
Definition Z_digits (z : Z) : list ascii :=
  digits_loop (S (Z.to_nat (Z.log2 z))) z [].

Definition zeros (n : nat) : list ascii := repeat "0"%char n.

(** [ds] padded with zeros on the left to at least [n] digits. *)
Definition pad_left (n : nat) (ds : list ascii) : list ascii :=
  zeros (n - List.length ds) ++ ds.

(** The fraction [num/den] times [10^k], for any integer [k]. *)
Definition scale10 (num den k : Z) : Z * Z :=
  if (0 <=? k)%Z then (num * 10 ^ k, den)%Z else (num, den * 10 ^ (- k))%Z.

(** The exact value of a positive finite binary64 number [m * 2^e] as a fraction. *)
Definition exact_fraction (m : positive) (e : Z) : Z * Z :=
  if (0 <=? e)%Z then (Zpos m * 2 ^ e, 1)%Z else (Zpos m, 2 ^ (- e))%Z.

(** The integer [e] with [10^e <= num/den < 10^(e+1)], for positive [num]
    and [den]: the digit counts leave two candidates. *)
Definition floor_log10 (num den : Z) : Z :=
  let est := (Z.of_nat (List.length (Z_digits num))
              - Z.of_nat (List.length (Z_digits den)))%Z in
  let (n, d) := scale10 num den (- est) in
  if (d <=? n)%Z then est else (est - 1)%Z.

(** [num/den] rounded to the nearest integer, a tie going up. *)
Definition round_half_up (num den : Z) : Z := ((2 * num + den) / (2 * den))%Z.

Definition exponent_suffix (e : Z) : list ascii :=
  "e"%char :: (if (0 <=? e)%Z then "+"%char else "-"%char) :: Z_digits (Z.abs e).

Definition with_point (ds : list ascii) : list ascii :=
  match ds with
  | d :: (_ :: _) as r => d :: "."%char :: r
  | _ => ds
  end.

Definition sign_prefix (neg : bool) : list ascii :=
  if neg then ["-"%char] else [].

(** The integers [n] and [e] of [toExponential]: [10^f <= n < 10^(f+1)] and
    [n * 10^(e-f)] is as close to [m * 2^e2] as possible, the larger [n]
    being taken when two are as close. *)
Definition exponential_parts (f : nat) (m : positive) (e2 : Z) : Z * Z :=
  let (num, den) := exact_fraction m e2 in
  let e := floor_log10 num den in
  let (n', d') := scale10 num den (Z.of_nat f - e) in
  let n := round_half_up n' d' in
  if (10 ^ Z.of_nat (S f) <=? n)%Z then (10 ^ Z.of_nat f, e + 1)%Z else (n, e).

(** [x.toExponential(f)] *)
Definition toExponential (x : float) (f : nat) : string :=
  string_of_list_ascii
    match Prim2SF x with
    | S754_nan => list_ascii_of_string "NaN"
    | S754_infinity s => sign_prefix s ++ list_ascii_of_string "Infinity"
    | S754_zero _ => with_point (zeros (S f)) ++ exponent_suffix 0
    | S754_finite s m e2 =>
        let (n, e) := exponential_parts f m e2 in
        sign_prefix s ++ with_point (pad_left (S f) (Z_digits n)) ++ exponent_suffix e
    end.

(** The shortest digit string [s] and the exponent [n] with
    [0.s * 10^n] rounding to [x] (here [x = num/den > 0]), searched by
    growing the number of digits [k]; of the two [k]-digit neighbours of
    [x] that round to it, the nearer one is taken. *)
Fixpoint shortest_digits (fuel : nat) (k : Z) (x : float) (num den n : Z)
  : list ascii * Z :=
  let (n', d') := scale10 num den (k - n) in
  let lo := (n' / d')%Z in
  let hi := (lo + 1)%Z in
  let ok (s : Z) := PrimFloat.eqb (SF2Prim (round_decimal false s (n - k))) x in
  let lo_nearer := (2 * (n' mod d') <=? d')%Z in
  let pick (s : Z) :=
    if (10 ^ k <=? s)%Z then (["1"%char], (n + 1)%Z) else (Z_digits s, n) in
  match fuel with
  | O => pick lo
  | S fuel' =>
      match ok lo, ok hi with
      | true, true => pick (if lo_nearer then lo else hi)
      | true, false => pick lo
      | false, true => pick hi
      | false, false => shortest_digits fuel' (k + 1)%Z x num den n
      end
  end.

(** The layout of [Number::toString] for digits [ds] and exponent [n]. *)
Definition layout_decimal (ds : list ascii) (n : Z) : list ascii :=
  let k := Z.of_nat (List.length ds) in
  if ((k <=? n) && (n <=? 21))%Z then ds ++ zeros (Z.to_nat (n - k))
  else if ((0 <? n) && (n <=? 21))%Z then
    firstn (Z.to_nat n) ds ++ "."%char :: skipn (Z.to_nat n) ds
  else if ((-6 <? n) && (n <=? 0))%Z then
    "0"%char :: "."%char :: zeros (Z.to_nat (- n)) ++ ds
  else with_point ds ++ exponent_suffix (n - 1).

(** [String(x)] for a number [x] *)
Definition numberToString (x : float) : string :=
  string_of_list_ascii
    match Prim2SF x with
    | S754_nan => list_ascii_of_string "NaN"
    | S754_infinity s => sign_prefix s ++ list_ascii_of_string "Infinity"
    | S754_zero _ => ["0"%char]
    | S754_finite s m e =>
        let (num, den) := exact_fraction m e in
        let n := (floor_log10 num den + 1)%Z in
        let (ds, n) := shortest_digits 17 1 (PrimFloat.abs x) num den n in
        sign_prefix s ++ layout_decimal ds n
    end.

End JS.

Open Scope string_scope.
Open Scope float_scope.
Set Warnings "-inexact-float".

(** ** Token model *)

(** [OpToken['op']]: '+', '-', '×' and '÷'. *)
Inductive Operator : Set := Plus | Minus | Times | Divide.

(** [type Token = NumToken | OpToken] *)
Inductive Token : Set :=
| NumToken (value : float)
| OpToken (op : Operator).

Definition is_op (t : Token) : bool :=
  match t with
  | OpToken _ => true
  | NumToken _ => false
  end.

Definition is_num (t : Token) : bool := negb (is_op t).

(** ** Infix to postfix: [toRPN] *)

(** [const prec = { '+': 1, '-': 1, '×': 2, '÷': 2 }] *)
Definition prec (o : Operator) : nat :=
  match o with
  | Plus | Minus => 1
  | Times | Divide => 2
  end.

Definition inspect {A : Type} (a : A) : {b : A | a = b} := exist _ a eq_refl.

(** The inner loop of [toRPN], for an incoming operator of precedence [p]:
    [while (ops.length && prec[ops[ops.length - 1].op] >= p) output.push(ops.pop()!)] *)
Equations pop_while (p : nat) (output : list Token) (ops : list Operator)
  : list Token * list Operator by wf (List.length ops) lt :=
  pop_while p output ops with inspect (JS.pop ops) => {
    | exist _ (Some top, rest) _ =>
        if (p <=? prec top)%nat
        then pop_while p (JS.push output (OpToken top)) rest
        else (output, ops)
    | exist _ (None, _) _ => (output, ops) }.
Next Obligation.
  unfold JS.pop in *. destruct (rev ops) as [|y l] eqn:E; [discriminate|].
  match goal with H : (_, _) = (_, _) |- _ => injection H as _ <- end.
  rewrite length_rev, <- (length_rev ops), E. simpl. lia.
Defined.

(** The last loop of [toRPN]: [while (ops.length) output.push(ops.pop()!)] *)
Equations pop_all (output : list Token) (ops : list Operator)
  : list Token by wf (List.length ops) lt :=
  pop_all output ops with inspect (JS.pop ops) => {
    | exist _ (Some top, rest) _ => pop_all (JS.push output (OpToken top)) rest
    | exist _ (None, _) _ => output }.
Next Obligation.
  unfold JS.pop in *. destruct (rev ops) as [|y l] eqn:E; [discriminate|].
  match goal with H : (_, _) = (_, _) |- _ => injection H as _ <- end.
  rewrite length_rev, <- (length_rev ops), E. simpl. lia.
Defined.

(** The body of [for (const t of tokens)], on the pair (output, ops). *)
Definition toRPN_body (st : list Token * list Operator) (t : Token)
  : list Token * list Operator :=
  let (output, ops) := st in
  match t with
  | NumToken _ => (JS.push output t, ops)
  | OpToken o =>
      let (output, ops) := pop_while (prec o) output ops in
      (output, JS.push ops o)
  end.

Definition toRPN (tokens : list Token) : list Token :=
  let (output, ops) := fold_left toRPN_body tokens ([], []) in
  pop_all output ops.

(** ** Postfix evaluation: [evalRPN] *)

(** The [switch (t.op)] of [evalRPN]. *)
Definition apply_op (o : Operator) (a b : float) : float :=
  match o with
  | Plus => a + b
  | Minus => a - b
  | Times => a * b
  | Divide => if b =? 0 then nan else a / b
  end.

(** The loop of [evalRPN] from the value stack [stack]: [None] when the loop
    is left by [return NaN], the stack after the last token otherwise. *)
Fixpoint evalRPN_loop (rpn : list Token) (stack : list float) : option (list float) :=
  match rpn with
  | [] => Some stack
  | NumToken v :: rest => evalRPN_loop rest (JS.push stack v)
  | OpToken o :: rest =>
      let (b, stack) := JS.pop stack in
      let (a, stack) := JS.pop stack in
      match a, b with
      | Some a, Some b => evalRPN_loop rest (JS.push stack (apply_op o a b))
      | _, _ => None
      end
  end.

Definition evalRPN (rpn : list Token) : float :=
  match evalRPN_loop rpn [] with
  | None => nan
  | Some [] => nan
  | Some (v :: _) => v
  end.

(** ** The component *)

Section Calculator.

(** [n.toLocaleString(undefined, { maximumFractionDigits: d })]: the text
    depends on the locale of the host, so it is a parameter here. *)
Variable toLocaleString : float -> nat -> string.

Definition formatNumber (n : float) : string :=
  if negb (JS.isFinite n) then "Error"
  else
    let n := if JS.is_neg_zero n then 0 else n in
    let abs := PrimFloat.abs n in
    if (1e12 <=? abs) || (negb (abs =? 0) && (abs <? 1e-6))
    then JS.toExponential n 6
    else toLocaleString n 10.

(** The state of the component: the three [useState] cells. *)
Record Session : Set := mkSession {
  display : string;
  tokens : list Token;
  justEvaluated : bool
}.

Definition initial : Session := mkSession "0" [] false.

Definition inputDigit (d : string) (s : Session) : Session :=
  if justEvaluated s then mkSession d (tokens s) false
  else if (display s =? "0")%string then mkSession d (tokens s) (justEvaluated s)
  else if (display s =? "-0")%string then mkSession ("-" ++ d) (tokens s) (justEvaluated s)
  else mkSession (display s ++ d) (tokens s) (justEvaluated s).

Definition inputDecimal (s : Session) : Session :=
  if justEvaluated s then mkSession "0." (tokens s) false
  else if negb (JS.includes "." (display s))
       then mkSession (display s ++ ".") (tokens s) (justEvaluated s)
       else s.

Definition clearAll (s : Session) : Session := mkSession "0" [] false.

Definition backspace (s : Session) : Session :=
  if justEvaluated s then mkSession "0" (tokens s) false
  else
    let prev := display s in
    let next := if (1 <? String.length prev)%nat then JS.slice_drop_last prev else "0" in
    mkSession (if (next =? "-")%string then "0" else next) (tokens s) (justEvaluated s).

Definition toggleSign (s : Session) : Session :=
  let prev := display s in
  let next :=
    if JS.startsWith "-" prev then JS.slice_from_1 prev
    else if (prev =? "0")%string then prev
    else "-" ++ prev in
  mkSession next (tokens s) (justEvaluated s).

Definition percent (s : Session) : Session :=
  let v := JS.parseFloat (display s) in
  if JS.isNaN v then s
  else mkSession (JS.numberToString (v / 100)) (tokens s) (justEvaluated s).

Definition inputOperator (o : Operator) (s : Session) : Session :=
  let next := tokens s in
  match JS.last_elem next with
  | Some (OpToken _) =>
      mkSession (display s) (JS.set_index next (List.length next - 1) (OpToken o))
        (justEvaluated s)
  | _ =>
      let v := JS.parseFloat (display s) in
      let next := if negb (JS.isNaN v) then JS.push next (NumToken v) else next in
      let next := JS.push next (OpToken o) in
      mkSession "0" next false
  end.

Definition evaluate (s : Session) : Session :=
  let seq := tokens s in
  let v := JS.parseFloat (display s) in
  let seq := if negb (JS.isNaN v) then JS.push seq (NumToken v) else seq in
  let seq :=
    match JS.last_elem seq with
    | Some (OpToken _) => snd (JS.pop seq)
    | _ => seq
    end in
  match seq with
  | [] => mkSession (display s) [] true
  | _ => mkSession (formatNumber (evalRPN (toRPN seq))) [] true
  end.

(** *** The actions of the keypad and the keyboard *)

(** The ten digit keys: the labels '0' to '9' of the buttons, the keys
    matched by [/^[0-9]$/]. *)
Inductive Digit : Set := D0 | D1 | D2 | D3 | D4 | D5 | D6 | D7 | D8 | D9.

Definition digit_key (d : Digit) : string :=
  match d with
  | D0 => "0" | D1 => "1" | D2 => "2" | D3 => "3" | D4 => "4"
  | D5 => "5" | D6 => "6" | D7 => "7" | D8 => "8" | D9 => "9"
  end.

Inductive Action : Set :=
| ADigit (d : Digit)
| ADecimal
| AOperator (o : Operator)
| AEvaluate
| ABackspace
| AClear
| AToggleSign
| APercent.

(** One event: the handler runs to completion on the current state. *)
Definition step (s : Session) (a : Action) : Session :=
  match a with
  | ADigit d => inputDigit (digit_key d) s
  | ADecimal => inputDecimal s
  | AOperator o => inputOperator o s
  | AEvaluate => evaluate s
  | ABackspace => backspace s
  | AClear => clearAll s
  | AToggleSign => toggleSign s
  | APercent => percent s
  end.

Definition run (trace : list Action) (s : Session) : Session :=
  fold_left step trace s.

(** The sessions the component can be in. *)
Inductive reachable : Session -> Prop :=
| reachable_initial : reachable initial
| reachable_step (s : Session) (a : Action) :
    reachable s -> reachable (step s a).

End Calculator.

Arguments reachable_initial {toLocaleString}.
Arguments reachable_step {toLocaleString}.

(** ** A host: the en-US locale *)

Module EnUS.

(** The digits of the integer part, in groups of three, read from the
    reversed digit list; [k] digits stand since the last separator. *)
Fixpoint group_rev (ds : list ascii) (k : nat) : list ascii :=
  match ds with
  | [] => []
  | d :: r =>
      match k with
      | 3%nat => ","%char :: d :: group_rev r 1
      | _ => d :: group_rev r (S k)
      end
  end.

Definition group3 (ds : list ascii) : list ascii := rev (group_rev (rev ds) 0).

Fixpoint drop_zeros (ds : list ascii) : list ascii :=
  match ds with
  | "0"%char :: r => drop_zeros r
  | _ => ds
  end.

Definition strip_trailing_zeros (ds : list ascii) : list ascii :=
  rev (drop_zeros (rev ds)).

(** The infinity sign, U+221E in UTF-8. *)
Definition infinity_sign : list ascii :=
  [ascii_of_nat 226; ascii_of_nat 136; ascii_of_nat 158].

(** The decimal number the formatter reads for the positive binary64 number
    [x = m * 2^e]: its shortest digits that round back to [x] (those of
    [String(x)]), as an integer [D] and an exponent [p], for [D * 10^p]. *)
Definition shortest_decimal (x : float) (m : positive) (e : Z) : Z * Z :=
  let (num, den) := JS.exact_fraction m e in
  let n := (JS.floor_log10 num den + 1)%Z in
  let (ds, n') := JS.shortest_digits 17 1 x num den n in
  (JS.decimal_value ds, (n' - Z.of_nat (List.length ds))%Z).

(** That decimal number times [10^d], rounded to the nearest integer, a tie
    going up. *)
Definition scaled_round (d : nat) (x : float) (m : positive) (e : Z) : Z :=
  let (D, p) := shortest_decimal x m e in
  let (n', d') := JS.scale10 D 1 (p + Z.of_nat d) in
  JS.round_half_up n' d'.

(** [x.toLocaleString('en-US', { maximumFractionDigits: d })]: the shortest
    decimal digits of the value rounded to [d] fraction digits (a tie away
    from zero), trailing zeros of the fraction dropped, the integer part
    grouped by thousands. *)
Definition toLocaleString (x : float) (d : nat) : string :=
  string_of_list_ascii
    match Prim2SF x with
    | S754_nan => list_ascii_of_string "NaN"
    | S754_infinity s => JS.sign_prefix s ++ infinity_sign
    | S754_zero s => JS.sign_prefix s ++ ["0"%char]
    | S754_finite s m e =>
        let n := scaled_round d (PrimFloat.abs x) m e in
        let ip := (n / 10 ^ Z.of_nat d)%Z in
        let fp := (n mod 10 ^ Z.of_nat d)%Z in
        let fds := strip_trailing_zeros (JS.pad_left d (JS.Z_digits fp)) in
        JS.sign_prefix s ++ group3 (JS.Z_digits ip)
          ++ match fds with
             | [] => []
             | _ => "."%char :: fds
             end
    end.

End EnUS.

(** ** Specification-level definitions and predicates *)

Close Scope float_scope.
Open Scope list_scope.

(** The operator stack of the specification: a list with its top first. *)
Definition OpStack := list Operator.

(** Section 4.2 of the specification, in its words: the operators popped
    for an incoming operator of precedence [p], in the order they are
    popped, and the stack that is left. *)
Fixpoint pop_geq (p : nat) (stack : OpStack) : list Operator * OpStack :=
  match stack with
  | top :: rest =>
      if (p <=? prec top)%nat
      then let (popped, left) := pop_geq p rest in (top :: popped, left)
      else ([], stack)
  | [] => ([], [])
  end.

(** The shunting-yard of the specification, as a relation between the input
    that is left, the output so far, the operator stack and the final output:
    a number goes to the output; an operator pops the longest run of stack
    tops whose precedence is at least its own and is pushed; the end of the
    input pops what is left on the stack. *)
Inductive yard : list Token -> list Token -> OpStack -> list Token -> Prop :=
| yard_end (output : list Token) (stack : OpStack) :
    yard [] output stack (output ++ map OpToken stack)
| yard_num (v : float) (input output : list Token) (stack : OpStack)
    (result : list Token) :
    yard input (output ++ [NumToken v]) stack result ->
    yard (NumToken v :: input) output stack result
| yard_op (o : Operator) (input output : list Token) (popped left : OpStack)
    (result : list Token) :
    Forall (fun top => prec o <= prec top)%nat popped ->
    (forall top left', left = top :: left' -> (prec top < prec o)%nat) ->
    yard input (output ++ map OpToken popped) (o :: left) result ->
    yard (OpToken o :: input) output (popped ++ left) result.

(** Section 4.3 of the specification, in its words: the value stack as a
    list with its top first; a number is pushed, an operator pops the right
    operand, then the left one, and pushes the result; [None] when an
    operator finds fewer than two values. *)
Fixpoint eval_stack (rpn : list Token) (stack : list float) : option (list float) :=
  match rpn with
  | [] => Some stack
  | NumToken v :: rest => eval_stack rest (v :: stack)
  | OpToken o :: rest =>
      match stack with
      | b :: a :: below => eval_stack rest (apply_op o a b :: below)
      | _ => None
      end
  end.

(** The text [s] is in exponential notation with [f] digits after the
    decimal point: an optional minus sign, one digit, the point, [f] digits,
    the letter e, a sign and the digits of the exponent. *)
Definition exponential_form (f : nat) (s : string) : Prop :=
  exists (sign : list ascii) (d : ascii) (frac : list ascii) (c : ascii)
         (ex : list ascii),
    list_ascii_of_string s = sign ++ d :: "."%char :: frac ++ "e"%char :: c :: ex /\
    (sign = [] \/ sign = ["-"%char]) /\
    List.length frac = f /\
    forallb JS.is_digit (d :: frac) = true /\
    (c = "+"%char \/ c = "-"%char) /\
    ex <> [] /\ forallb JS.is_digit ex = true.

(** The test of [formatNumber] for the exponential notation:
    [abs >= 1e12 || (abs !== 0 && abs < 1e-6)]. *)
Definition exponential_range (n : float) : bool :=
  let abs := PrimFloat.abs n in
  (PrimFloat.leb 1e12 abs || (negb (PrimFloat.eqb abs 0) && PrimFloat.ltb abs 1e-6))%float.

(** The text [s] is in decimal notation with at most [d] digits after the
    decimal point: an integer part of digits, separators and a sign, then
    either nothing or the point and 1 to [d] digits. *)
Definition fixed_form (d : nat) (s : string) : Prop :=
  exists (ip fds : list ascii),
    list_ascii_of_string s
    = ip ++ match fds with
            | [] => []
            | _ => "."%char :: fds
            end /\
    forallb (fun c => JS.is_digit c || Ascii.eqb c "," || Ascii.eqb c "-") ip = true /\
    (List.length fds <= d)%nat /\
    forallb JS.is_digit fds = true.

(** The characters of the decimal notation: digits, the separator, the
    sign and the point. *)
Definition notation_char (c : ascii) : bool :=
  JS.is_digit c || Ascii.eqb c "," || Ascii.eqb c "-" || Ascii.eqb c ".".

(** The shapes of the pending sequence. *)
Definition pending_shape (ts : list Token) : Prop :=
  ts = [] \/ (exists o, ts = [OpToken o]) \/ (exists v o, ts = [NumToken v; OpToken o]).

(** The sequence ends in two numbers or in two operators. *)
Definition ends_in_same_kind (ts : list Token) : bool :=
  match rev ts with
  | t1 :: t2 :: _ => Bool.eqb (is_op t1) (is_op t2)
  | _ => false
  end.

(** What every reachable session satisfies: the pending sequence has one of
    the three shapes, and it is empty while the flag is set. *)
Definition session_invariant (s : Session) : Prop :=
  pending_shape (tokens s) /\ (justEvaluated s = true -> tokens s = []).

Fixpoint all_chars (p : ascii -> bool) (s : string) : bool :=
  match s with
  | EmptyString => true
  | String c r => p c && all_chars p r
  end.

Fixpoint count_char (c : ascii) (s : string) : nat :=
  match s with
  | EmptyString => 0
  | String d r => (if Ascii.eqb c d then 1 else 0) + count_char c r
  end.

Definition numeral_char (c : ascii) : bool := JS.is_digit c || Ascii.eqb c ".".

(** The buffer without its leading minus sign, when it has one. *)
Definition unsigned_part (s : string) : string :=
  match s with
  | String "-" r => r
  | _ => s
  end.

(** The invariants of the display buffer in the specification: at most one
    decimal point, and nothing but digits and decimal points after an
    optional leading minus sign (so there is at most one minus sign, and it
    leads). *)
Definition well_formed_buffer (s : string) : bool :=
  (count_char "." s <=? 1)%nat && all_chars numeral_char (unsigned_part s).

(** The operations that edit the buffer character by character: all but
    [evaluate] and [percent], which write the text of a number into it. *)
Definition is_typing (a : Action) : bool :=
  match a with
  | AEvaluate | APercent => false
  | _ => true
  end.

(** The operations other than [percent]. *)
Definition is_not_percent (a : Action) : bool :=
  match a with
  | APercent => false
  | _ => true
  end.

(** The session after 5 ÷ 0 =, on an en-US host. *)
Definition error_session : Session :=
  run EnUS.toLocaleString [ADigit D5; AOperator Divide; ADigit D0; AEvaluate] initial.

(** The session after 6 =, on an en-US host. *)
Definition result_session : Session :=
  run EnUS.toLocaleString [ADigit D6; AEvaluate] initial.

(** The session after 5 ÷ 2 =, on an en-US host. *)
Definition fraction_session : Session :=
  run EnUS.toLocaleString [ADigit D5; AOperator Divide; ADigit D2; AEvaluate] initial.

(** ** The keyboard handler *)

(** [c.toLowerCase()] on a character of the ASCII range. *)
Definition lower_char (c : ascii) : ascii :=
  let n := nat_of_ascii c in
  if (65 <=? n)%nat && (n <=? 90)%nat then ascii_of_nat (n + 32) else c.

(** [key.toLowerCase()] *)
Fixpoint toLowerCase (s : string) : string :=
  match s with
  | EmptyString => EmptyString
  | String c r => String (lower_char c) (toLowerCase r)
  end.

(** [/^[0-9]$/.test(key)] *)
Definition is_digit_key (key : string) : bool :=
  match key with
  | String c EmptyString => JS.is_digit c
  | _ => false
  end.

(** The [keydown] handler of the component, on the key [e.key]: the chain
    of tests of the source, each calling the operation it calls; a key that
    passes no test leaves the session as it is. *)
Definition handleKeyDown (toLocaleString : float -> nat -> string)
  (key : string) (s : Session) : Session :=
  if is_digit_key key then inputDigit key s
  else if (key =? ".")%string then inputDecimal s
  else if (key =? "+")%string then inputOperator Plus s
  else if (key =? "-")%string then inputOperator Minus s
  else if ((key =? "*") || (key =? "x") || (key =? "X"))%string then inputOperator Times s
  else if (key =? "/")%string then inputOperator Divide s
  else if ((key =? "Enter") || (key =? "="))%string then evaluate toLocaleString s
  else if (key =? "Backspace")%string then backspace s
  else if ((key =? "Escape") || (toLowerCase key =? "c"))%string then clearAll s
  else s.

(** The actions that only a button triggers. *)
Definition is_pointer_only (a : Action) : bool :=
  match a with
  | AToggleSign | APercent => true
  | _ => false
  end.

(** ** Infix expressions *)

(** The token sequence of the expression [n0 o1 n1 o2 n2 ...]. *)
Definition infix_tokens (n0 : float) (rest : list (Operator * float)) : list Token :=
  NumToken n0 :: flat_map (fun p => [OpToken (fst p); NumToken (snd p)]) rest.

(** The sum so far, if any, with its pending additive operator, applied to
    the current term. *)
Definition close_term (pending : option (float * Operator)) (term : float) : float :=
  match pending with
  | None => term
  | Some (sum, o) => apply_op o sum term
  end.

(** The value of an infix expression read from left to right, × and ÷
    binding tighter than + and -: a multiplicative operator extends the
    current term, an additive one closes it into the sum. *)
Fixpoint infix_eval (pending : option (float * Operator)) (term : float)
  (rest : list (Operator * float)) : float :=
  match rest with
  | [] => close_term pending term
  | (o, n) :: rest' =>
      match o with
      | Times | Divide => infix_eval pending (apply_op o term n) rest'
      | Plus | Minus => infix_eval (Some (close_term pending term, o)) n rest'
      end
  end.

Definition infix_value (n0 : float) (rest : list (Operator * float)) : float :=
  infix_eval None n0 rest.

(** The states of the converter after a number of an infix expression: the
    operator stack holds at most one additive operator under at most one
    multiplicative one, and the output so far evaluates to their operands. *)
Inductive yard_state :
  list Token -> OpStack -> option (float * Operator) -> float -> Prop :=
| ys_term (output : list Token) (t : float) :
    eval_stack output [] = Some [t] ->
    yard_state output [] None t
| ys_sum (output : list Token) (a : Operator) (s t : float) :
    prec a = 1%nat ->
    eval_stack output [] = Some [t; s] ->
    yard_state output [a] (Some (s, a)) t
| ys_product (output : list Token) (m : Operator) (t0 n : float) :
    prec m = 2%nat ->
    eval_stack output [] = Some [n; t0] ->
    yard_state output [m] None (apply_op m t0 n)
| ys_sum_product (output : list Token) (m a : Operator) (s t0 n : float) :
    prec m = 2%nat -> prec a = 1%nat ->
    eval_stack output [] = Some [n; t0; s] ->
    yard_state output [m; a] (Some (s, a)) (apply_op m t0 n).

(** ** More on the display buffer *)

Definition starts_with_digit (s : string) : bool :=
  match s with
  | String c _ => JS.is_digit c
  | EmptyString => false
  end.

(** The buffer holds a digit right after its optional minus sign. *)
Definition has_leading_digit (s : string) : bool :=
  starts_with_digit (unsigned_part s).

(** The operations that edit the number in the display and nothing else. *)
Definition is_number_edit (a : Action) : bool :=
  match a with
  | ADigit _ | ADecimal | ABackspace | AToggleSign => true
  | _ => false
  end.

(** The text of a run of digit keys. *)
Definition digits_text (ds : list Digit) : string :=
  String.concat "" (map digit_key ds).

(** * Properties *)

(** ** Arrays *)

Lemma pop_nil {A : Type} : JS.pop (@nil A) = (None, []).
Proof. reflexivity. Qed.

Lemma pop_push {A : Type} (xs : list A) (x : A) :
  JS.pop (JS.push xs x) = (Some x, xs).
Proof.
  unfold JS.pop, JS.push. rewrite rev_app_distr. simpl.
  now rewrite rev_involutive.
Qed.

Lemma last_elem_push {A : Type} (xs : list A) (x : A) :
  JS.last_elem (JS.push xs x) = Some x.
Proof. unfold JS.last_elem. now rewrite pop_push. Qed.

Lemma set_index_last {A : Type} (xs : list A) (x y : A) :
  JS.set_index (xs ++ [x]) (List.length (xs ++ [x]) - 1) y = xs ++ [y].
Proof.
  rewrite length_app, Nat.add_sub. simpl.
  induction xs as [|z xs IH]; simpl; [reflexivity|].
  now rewrite IH.
Qed.

(** An array is empty or ends in a last element. *)
Lemma array_cases {A : Type} (xs : list A) :
  xs = [] \/ exists ys y, xs = JS.push ys y.
Proof.
  destruct xs as [|x xs] using rev_ind; [now left|].
  right. now exists xs, x.
Qed.

(** ** Numbers *)

Lemma nan_is_nan : JS.isNaN nan = true.
Proof. reflexivity. Qed.

Lemma isNaN_false_neq_nan (x : float) : JS.isNaN x = false -> x <> nan.
Proof. intros H E. rewrite E in H. discriminate H. Qed.

(** Negative zero is the only number that [Object.is] equates with [-0]. *)
Lemma is_neg_zero_eq (x : float) : JS.is_neg_zero x = true -> x = (-0)%float.
Proof.
  unfold JS.is_neg_zero. rewrite classify_spec.
  intros H. rewrite <- (SF2Prim_Prim2SF x).
  destruct (Prim2SF x) as [[|]|[|]| |[|] m e]; simpl in H; try discriminate H;
    try reflexivity;
    match type of H with
    | context [if ?c then _ else _] => destruct c; discriminate H
    end.
Qed.

(** ** The converter *)

Lemma pop_while_empty (p : nat) (output : list Token) :
  pop_while p output [] = (output, []).
Proof. reflexivity. Qed.

Lemma pop_while_push (p : nat) (output : list Token) (ops : list Operator)
  (top : Operator) :
  pop_while p output (JS.push ops top) =
  if (p <=? prec top)%nat
  then pop_while p (JS.push output (OpToken top)) ops
  else (output, JS.push ops top).
Proof.
  remember (JS.push ops top) as l eqn:El.
  funelim (pop_while p output l).
  - match goal with
    | E : JS.pop (JS.push _ _) = _ |- _ =>
        pose proof E as E'; rewrite pop_push in E'; injection E' as E1 E2
    end.
    subst.
    reflexivity.
  - match goal with
    | E : JS.pop (JS.push _ _) = _ |- _ =>
        pose proof E as E'; rewrite pop_push in E'; discriminate E'
    end.
Qed.

Lemma pop_all_empty (output : list Token) : pop_all output [] = output.
Proof. reflexivity. Qed.

Lemma pop_all_push (output : list Token) (ops : list Operator) (top : Operator) :
  pop_all output (JS.push ops top) = pop_all (JS.push output (OpToken top)) ops.
Proof.
  remember (JS.push ops top) as l eqn:El.
  funelim (pop_all output l).
  - match goal with
    | E : JS.pop (JS.push _ _) = _ |- _ =>
        pose proof E as E'; rewrite pop_push in E'; injection E' as E1 E2
    end.
    subst.
    reflexivity.
  - match goal with
    | E : JS.pop (JS.push _ _) = _ |- _ =>
        pose proof E as E'; rewrite pop_push in E'; discriminate E'
    end.
Qed.

(** [pop_geq] pops exactly the run the specification describes. *)
Lemma pop_geq_spec (p : nat) (stack : OpStack) :
  stack = fst (pop_geq p stack) ++ snd (pop_geq p stack) /\
  Forall (fun top => p <= prec top)%nat (fst (pop_geq p stack)) /\
  (forall top left', snd (pop_geq p stack) = top :: left' -> (prec top < p)%nat).
Proof.
  induction stack as [|top rest IH]; simpl.
  - repeat split; [constructor | discriminate].
  - destruct (p <=? prec top)%nat eqn:Hp.
    + destruct (pop_geq p rest) as [popped left]. simpl in *.
      destruct IH as (E & Hall & Hleft).
      repeat split.
      * now rewrite E at 1.
      * constructor; [now apply Nat.leb_le | exact Hall].
      * exact Hleft.
    + simpl. repeat split; [constructor|].
      intros top' left' [= <- _]. now apply Nat.leb_gt.
Qed.

(** The run is determined by the stack. *)
Lemma pop_geq_unique (p : nat) (popped left : OpStack) :
  Forall (fun top => p <= prec top)%nat popped ->
  (forall top left', left = top :: left' -> (prec top < p)%nat) ->
  pop_geq p (popped ++ left) = (popped, left).
Proof.
  intros Hall Hleft. induction Hall as [|top popped Htop _ IH]; simpl.
  - destruct left as [|top left']; [reflexivity|]. simpl.
    specialize (Hleft top left' eq_refl).
    apply Nat.leb_gt in Hleft. now rewrite Hleft.
  - apply Nat.leb_le in Htop. now rewrite Htop, IH.
Qed.

(** The array [ops] of the code holds the stack bottom first. *)
Lemma pop_while_rev (p : nat) (stack : OpStack) (output : list Token) :
  pop_while p output (rev stack) =
  (output ++ map OpToken (fst (pop_geq p stack)), rev (snd (pop_geq p stack))).
Proof.
  revert output. induction stack as [|top rest IH]; intros output.
  - simpl. rewrite pop_while_empty. now rewrite app_nil_r.
  - simpl rev. change (rev rest ++ [top]) with (JS.push (rev rest) top).
    rewrite pop_while_push. simpl pop_geq.
    destruct (p <=? prec top)%nat.
    + rewrite IH. destruct (pop_geq p rest) as [popped left]. simpl.
      unfold JS.push. now rewrite <- app_assoc.
    + simpl. now rewrite app_nil_r.
Qed.

Lemma pop_all_rev (stack : OpStack) (output : list Token) :
  pop_all output (rev stack) = output ++ map OpToken stack.
Proof.
  revert output. induction stack as [|top rest IH]; intros output.
  - simpl. rewrite pop_all_empty. now rewrite app_nil_r.
  - simpl rev. change (rev rest ++ [top]) with (JS.push (rev rest) top).
    rewrite pop_all_push, IH. unfold JS.push. now rewrite <- app_assoc.
Qed.

(** The loop of [toRPN], started anywhere, follows the shunting-yard. *)
Lemma toRPN_loop_yard (input output : list Token) (stack : OpStack) :
  yard input output stack
    (let (output', ops) := fold_left toRPN_body input (output, rev stack) in
     pop_all output' ops).
Proof.
  revert output stack.
  induction input as [|[v|o] input IH]; intros output stack.
  - simpl. rewrite pop_all_rev. constructor.
  - simpl. apply yard_num. apply IH.
  - simpl. rewrite pop_while_rev.
    destruct (pop_geq_spec (prec o) stack) as (E & Hall & Hleft).
    rewrite E at 1.
    apply yard_op; [exact Hall | exact Hleft |].
    change (JS.push (rev (snd (pop_geq (prec o) stack))) o)
      with (rev (o :: snd (pop_geq (prec o) stack))).
    apply IH.
Qed.

Lemma yard_deterministic (input output : list Token) (stack : OpStack)
  (r1 r2 : list Token) :
  yard input output stack r1 -> yard input output stack r2 -> r1 = r2.
Proof.
  intros H1. revert r2.
  induction H1 as [output stack | v input output stack r1 _ IH
                  | o input output popped left r1 Hall Hleft _ IH];
    intros r2 H2.
  - inversion H2; subst. reflexivity.
  - inversion H2; subst. now apply IH.
  - inversion H2 as [| | o' input' output' popped' left' r2' Hall' Hleft' H2' E1 E2 E3 E4].
    subst.
    pose proof (pop_geq_unique (prec o) popped left Hall Hleft) as U.
    pose proof (pop_geq_unique (prec o) popped' left' Hall' Hleft') as U'.
    rewrite <- E3 in U. rewrite U' in U. injection U as -> ->.
    now apply IH.
Qed.

(** The shunting-yard keeps the numeric tokens, in their order. *)
Lemma yard_numbers (input output : list Token) (stack : OpStack)
  (result : list Token) :
  yard input output stack result ->
  filter is_num result = filter is_num output ++ filter is_num input.
Proof.
  induction 1 as [output stack | v input output stack r _ IH
                 | o input output popped left r _ _ _ IH].
  - rewrite filter_app, app_nil_r.
    assert (E : filter is_num (map OpToken stack) = []).
    { induction stack as [|x stack IHs]; [reflexivity | exact IHs]. }
    now rewrite E, app_nil_r.
  - rewrite IH, filter_app. simpl. now rewrite <- app_assoc.
  - rewrite IH, filter_app. simpl.
    assert (E : filter is_num (map OpToken popped) = []).
    { clear. induction popped as [|x popped IHs]; [reflexivity | exact IHs]. }
    now rewrite E, app_nil_r.
Qed.

(** C4: [toRPN] is the shunting-yard of the specification for binary
    left-associative operators.  Its result is the one output the relation
    [yard] allows from an empty output and an empty stack: numbers go to the
    output in order, an operator first pops every stack top of greater or
    equal precedence (table: add 1, subtract 1, multiply 2, divide 2), and
    the stack is emptied into the output at the end. *)
Theorem toRPN_shunting_yard (input result : list Token) :
  (yard input [] [] result <-> result = toRPN input) /\
  filter is_num (toRPN input) = filter is_num input /\
  (prec Plus, prec Minus, prec Times, prec Divide) = (1, 1, 2, 2)%nat.
Proof.
  assert (Y : yard input [] [] (toRPN input)) by apply (toRPN_loop_yard input [] []).
  repeat split.
  - intros H. exact (yard_deterministic _ _ _ _ _ H Y).
  - intros ->. exact Y.
  - exact (yard_numbers _ _ _ _ Y).
Qed.

(** An instance: 2 + 3 × 4 becomes 2 3 4 × +. *)
Lemma toRPN_shunting_yard_witness :
  yard [NumToken 2; OpToken Plus; NumToken 3; OpToken Times; NumToken 4] [] []
       [NumToken 2; NumToken 3; NumToken 4; OpToken Times; OpToken Plus].
Proof.
  apply (proj2 (proj1 (toRPN_shunting_yard
    [NumToken 2; OpToken Plus; NumToken 3; OpToken Times; NumToken 4]
    [NumToken 2; NumToken 3; NumToken 4; OpToken Times; OpToken Plus]))).
  reflexivity.
Defined.

(** ** The evaluator *)

(** The array [stack] of the code holds the value stack bottom first. *)
Lemma evalRPN_loop_rev (rpn : list Token) (stack : list float) :
  evalRPN_loop rpn (rev stack) = option_map (@rev float) (eval_stack rpn stack).
Proof.
  revert stack. induction rpn as [|[v|o] rpn IH]; intros stack.
  - reflexivity.
  - simpl. apply (IH (v :: stack)).
  - simpl. destruct stack as [|b [|a below]].
    + reflexivity.
    + reflexivity.
    + simpl rev.
      change ((rev below ++ [a]) ++ [b]) with (JS.push (JS.push (rev below) a) b).
      rewrite !pop_push. apply (IH (apply_op o a b :: below)).
Qed.

Lemma evalRPN_eval_stack (rpn : list Token) :
  evalRPN rpn =
  match eval_stack rpn [] with
  | None => nan
  | Some stack => hd nan (rev stack)
  end.
Proof.
  unfold evalRPN. change (@nil float) with (rev (@nil float)) at 1.
  rewrite (evalRPN_loop_rev rpn []).
  destruct (eval_stack rpn []) as [stack|]; [|reflexivity].
  simpl. now destruct (rev stack).
Qed.

(** C1, as the code has it: after all tokens are consumed the result is the
    single remaining value when exactly one value remains and NaN when none
    remains; when more than one value remains it is the bottom-most value
    (the first one pushed, [stack[0]]), not NaN; it is NaN when an operator
    found fewer than two values. *)
Theorem evalRPN_result (rpn : list Token) :
  match eval_stack rpn [] with
  | None => evalRPN rpn = nan
  | Some [] => evalRPN rpn = nan
  | Some [v] => evalRPN rpn = v
  | Some (top :: below) => evalRPN rpn = last below top
  end.
Proof.
  rewrite evalRPN_eval_stack.
  destruct (eval_stack rpn []) as [[|top [|next below]]|]; try reflexivity.
  assert (E : forall (l : list float) (d1 d2 : float),
             l <> [] -> hd d1 (rev l) = last l d2).
  { clear. intros l d1 d2 Hl. destruct l as [|x l] using rev_ind; [easy|].
    rewrite rev_app_distr, last_last. reflexivity. }
  change (top :: next :: below) with ([top] ++ next :: below).
  rewrite rev_app_distr.
  destruct (rev (next :: below)) as [|y l] eqn:R.
  - apply (f_equal (@List.length float)) in R. rewrite length_rev in R. discriminate R.
  - rewrite <- (E (next :: below) nan top) by discriminate. now rewrite R.
Qed.

(** C1, as stated, fails: after the postfix sequence 1 2 two values remain
    and the result is 1, which is not NaN. *)
Lemma evalRPN_two_values_left :
  evalRPN_loop [NumToken 1; NumToken 2] [] = Some [1%float; 2%float] /\
  evalRPN [NumToken 1; NumToken 2] = 1%float /\
  JS.isNaN (evalRPN [NumToken 1; NumToken 2]) = false.
Proof. repeat split. Qed.

(** C5: division in [evalRPN] gives NaN when the right operand is zero and
    the quotient otherwise, for every pair of operands; 5 ÷ 0 evaluates to
    NaN; [formatNumber] turns NaN, and every number that is not finite,
    into the text Error.  All functions are total: nothing is raised. *)
Theorem division_by_zero_is_Error (toLocaleString : float -> nat -> string)
  (a b n : float) (Hn : JS.isFinite n = false) :
  evalRPN [NumToken a; NumToken b; OpToken Divide]
    = (if PrimFloat.eqb b 0 then nan else PrimFloat.div a b) /\
  evalRPN (toRPN [NumToken 5; OpToken Divide; NumToken 0]) = nan /\
  formatNumber toLocaleString
    (evalRPN (toRPN [NumToken 5; OpToken Divide; NumToken 0])) = "Error" /\
  formatNumber toLocaleString n = "Error".
Proof.
  repeat split.
  unfold formatNumber. now rewrite Hn.
Qed.

Lemma division_by_zero_is_Error_witness :
  formatNumber EnUS.toLocaleString infinity = "Error".
Proof.
  apply (division_by_zero_is_Error EnUS.toLocaleString 5 0 infinity).
  reflexivity.
Defined.

(** C10: a division whose right operand is negative zero evaluates to NaN,
    as it does for positive zero, whatever the left operand; the result is
    neither infinity. *)
Theorem division_by_negative_zero (a : float) :
  evalRPN [NumToken a; NumToken (-0); OpToken Divide] = nan /\
  evalRPN (toRPN [NumToken a; OpToken Divide; NumToken (-0)]) = nan /\
  apply_op Divide a (-0) = apply_op Divide a 0 /\
  PrimFloat.eqb (-0) 0 = true /\
  PrimFloat.is_infinity (apply_op Divide a (-0)) = false.
Proof. repeat split. Qed.

(** ** The formatter *)

Lemma digit_char_is_digit (z : Z) : JS.is_digit (JS.digit_char (z mod 10)) = true.
Proof.
  pose proof (Z.mod_pos_bound z 10 eq_refl) as B.
  assert (C : (z mod 10 = 0 \/ z mod 10 = 1 \/ z mod 10 = 2 \/ z mod 10 = 3 \/
               z mod 10 = 4 \/ z mod 10 = 5 \/ z mod 10 = 6 \/ z mod 10 = 7 \/
               z mod 10 = 8 \/ z mod 10 = 9)%Z) by lia.
  repeat (destruct C as [C|C]; [rewrite C; reflexivity|]).
  rewrite C. reflexivity.
Qed.

Lemma digits_loop_digits (fuel : nat) (z : Z) (acc : list ascii) :
  forallb JS.is_digit acc = true ->
  forallb JS.is_digit (JS.digits_loop fuel z acc) = true.
Proof.
  revert z acc. induction fuel as [|fuel IH]; intros z acc Hacc; cbn [JS.digits_loop].
  - exact Hacc.
  - assert (H : forallb JS.is_digit (JS.digit_char (z mod 10) :: acc) = true).
    { cbn [forallb]. now rewrite digit_char_is_digit, Hacc. }
    destruct (z <? 10)%Z; [exact H | now apply IH].
Qed.

Lemma digits_loop_length (fuel : nat) (z : Z) (acc : list ascii) (k : nat) :
  (1 <= k)%nat -> (z < 10 ^ Z.of_nat k)%Z ->
  (List.length (JS.digits_loop fuel z acc) <= k + List.length acc)%nat.
Proof.
  revert z acc k. induction fuel as [|fuel IH]; intros z acc k Hk Hz;
    cbn [JS.digits_loop].
  - lia.
  - destruct (z <? 10)%Z eqn:Hz10.
    + cbn [List.length]. lia.
    + apply Z.ltb_ge in Hz10.
      destruct k as [|[|k]]; [lia | change (10 ^ Z.of_nat 1)%Z with 10%Z in Hz; lia |].
      assert (Hdiv : (z / 10 < 10 ^ Z.of_nat (S k))%Z).
      { apply Z.div_lt_upper_bound; [lia|].
        replace (Z.of_nat (S (S k))) with (Z.succ (Z.of_nat (S k))) in Hz by lia.
        rewrite Z.pow_succ_r in Hz by lia. exact Hz. }
      specialize (IH (z / 10)%Z (JS.digit_char (z mod 10) :: acc) (S k)
                     ltac:(lia) Hdiv).
      cbn [List.length] in IH. lia.
Qed.

Lemma Z_digits_digits (z : Z) : forallb JS.is_digit (JS.Z_digits z) = true.
Proof. now apply digits_loop_digits. Qed.

Lemma Z_digits_length (z : Z) (k : nat) :
  (1 <= k)%nat -> (z < 10 ^ Z.of_nat k)%Z -> (List.length (JS.Z_digits z) <= k)%nat.
Proof.
  intros Hk Hz. pose proof (digits_loop_length (S (Z.to_nat (Z.log2 z))) z [] k Hk Hz) as H.
  cbn [List.length] in H. unfold JS.Z_digits. lia.
Qed.

Lemma Z_digits_nonempty (z : Z) : JS.Z_digits z <> [].
Proof.
  unfold JS.Z_digits. cbn [JS.digits_loop].
  assert (G : forall fuel y acc, acc <> [] -> JS.digits_loop fuel y acc <> []).
  { induction fuel as [|fuel IH]; intros y acc Hacc; cbn [JS.digits_loop];
      [exact Hacc|].
    destruct (y <? 10)%Z; [discriminate | apply IH; discriminate]. }
  destruct (z <? 10)%Z; [discriminate | apply G; discriminate].
Qed.

Lemma zeros_digits (n : nat) : forallb JS.is_digit (JS.zeros n) = true.
Proof. induction n as [|n IH]; [reflexivity | exact IH]. Qed.

Lemma pad_left_digits (n : nat) (ds : list ascii) :
  forallb JS.is_digit ds = true -> forallb JS.is_digit (JS.pad_left n ds) = true.
Proof.
  intros H. unfold JS.pad_left. now rewrite forallb_app, zeros_digits, H.
Qed.

Lemma pad_left_length (n : nat) (ds : list ascii) :
  (List.length ds <= n)%nat -> List.length (JS.pad_left n ds) = n.
Proof.
  intros H. unfold JS.pad_left, JS.zeros. rewrite length_app, repeat_length. lia.
Qed.

Lemma exponential_parts_bound (f : nat) (m : positive) (e2 : Z) :
  (fst (JS.exponential_parts f m e2) < 10 ^ Z.of_nat (S f))%Z.
Proof.
  unfold JS.exponential_parts.
  destruct (JS.exact_fraction m e2) as [num den].
  destruct (JS.scale10 num den _) as [n' d'].
  destruct (10 ^ Z.of_nat (S f) <=? JS.round_half_up n' d')%Z eqn:H; cbn [fst].
  - apply Z.pow_lt_mono_r; lia.
  - now apply Z.leb_gt in H.
Qed.

(** A finite number is a zero or has a mantissa and an exponent. *)
Lemma finite_cases (x : float) :
  JS.isFinite x = true ->
  (exists s, Prim2SF x = S754_zero s) \/
  (exists s m e, Prim2SF x = S754_finite s m e).
Proof.
  unfold JS.isFinite, is_finite, Prim2SF. intros H.
  destruct (is_nan x); [discriminate H|].
  destruct (is_infinity x); [discriminate H|].
  destruct (is_zero x); [left; eexists; reflexivity|].
  destruct (Z.frexp x) as [r ex].
  destruct (shr_fexp _ _ _ _ _) as [shr e'].
  destruct (shr_m shr); [left | right | left]; repeat eexists.
Qed.

(** [toExponential] writes one digit, the point and [f] digits. *)
Lemma toExponential_form (x : float) (f : nat) :
  JS.isFinite x = true -> exponential_form (S f) (JS.toExponential x (S f)).
Proof.
  intros Hx. unfold exponential_form, JS.toExponential.
  rewrite list_ascii_of_string_of_list_ascii.
  destruct (finite_cases x Hx) as [[s ->] | (s & m & e2 & ->)].
  - exists [], "0"%char, (JS.zeros (S f)), "+"%char, ["0"%char].
    split; [reflexivity|].
    split; [now left|].
    split; [unfold JS.zeros; now rewrite repeat_length|].
    split; [apply (zeros_digits (S (S f)))|].
    split; [now left|].
    split; [discriminate | reflexivity].
  - pose proof (exponential_parts_bound (S f) m e2) as B.
    destruct (JS.exponential_parts (S f) m e2) as [n e]. cbn [fst] in B.
    pose proof (pad_left_length (S (S f)) (JS.Z_digits n)
                  (Z_digits_length n (S (S f)) ltac:(lia) B)) as L.
    pose proof (pad_left_digits (S (S f)) _ (Z_digits_digits n)) as D.
    destruct (JS.pad_left (S (S f)) (JS.Z_digits n)) as [|d [|d2 rest]];
      [discriminate L | discriminate L |].
    exists (JS.sign_prefix s), d, (d2 :: rest),
      (if (0 <=? e)%Z then "+"%char else "-"%char), (JS.Z_digits (Z.abs e)).
    split; [reflexivity|].
    split; [destruct s; [now right | now left]|].
    split; [cbn [List.length] in L |- *; lia|].
    split; [exact D|].
    split; [destruct (0 <=? e)%Z; [now left | now right]|].
    split; [apply Z_digits_nonempty | apply Z_digits_digits].
Qed.

(** ** The session *)

Section Session.

Variable toLocaleString : float -> nat -> string.

Local Abbreviation step := (step toLocaleString).
Local Abbreviation run := (run toLocaleString).
Local Abbreviation reachable := (reachable toLocaleString).
Local Abbreviation evaluate := (evaluate toLocaleString).

Lemma run_app (t1 t2 : list Action) (s : Session) :
  run (t1 ++ t2) s = run t2 (run t1 s).
Proof. apply fold_left_app. Qed.

Lemma reachable_run (trace : list Action) (s : Session) :
  reachable s -> reachable (run trace s).
Proof.
  revert s. induction trace as [|a trace IH]; intros s Hs; [exact Hs|].
  apply IH. now constructor.
Qed.

Lemma reachable_trace (s : Session) :
  reachable s <-> exists trace, s = run trace initial.
Proof.
  split.
  - induction 1 as [|s a _ [trace ->]].
    + now exists [].
    + exists (trace ++ [a]). now rewrite run_app.
  - intros [trace ->]. apply reachable_run. constructor.
Qed.

(** *** Operator entry *)

(** [inputOperator] when the pending sequence ends in an operator. *)
Lemma inputOperator_replace (o o' : Operator) (ts : list Token) (s : Session) :
  tokens s = JS.push ts (OpToken o') ->
  inputOperator o s =
  mkSession (display s) (JS.push ts (OpToken o)) (justEvaluated s).
Proof.
  intros E. unfold inputOperator. rewrite E, last_elem_push.
  unfold JS.push. now rewrite set_index_last.
Qed.

(** [inputOperator] when it does not. *)
Lemma inputOperator_append (o : Operator) (s : Session) :
  (forall ts o', tokens s <> JS.push ts (OpToken o')) ->
  inputOperator o s =
  mkSession "0"
    (if JS.isNaN (JS.parseFloat (display s))
     then JS.push (tokens s) (OpToken o)
     else JS.push (JS.push (tokens s) (NumToken (JS.parseFloat (display s)))) (OpToken o))
    false.
Proof.
  intros H. unfold inputOperator.
  destruct (array_cases (tokens s)) as [E | (ts & t & E)].
  - rewrite E. simpl. now destruct (JS.isNaN _).
  - rewrite E, last_elem_push. destruct t as [v|o'].
    + now destruct (JS.isNaN _).
    + now elim (H ts o').
Qed.

Lemma pending_shape_ends (ts : list Token) :
  pending_shape ts -> ends_in_same_kind ts = false.
Proof. intros [-> | [[o ->] | (v & o & ->)]]; reflexivity. Qed.

Lemma inputOperator_invariant (o : Operator) (s : Session) :
  session_invariant s -> session_invariant (inputOperator o s).
Proof.
  intros [[E | [[o' E] | (v & o' & E)]] F].
  - unfold inputOperator. rewrite E. simpl.
    destruct (JS.isNaN _); simpl; split; try discriminate.
    + right. left. now exists o.
    + right. right. now eexists _, o.
  - rewrite (inputOperator_replace o o' [] s E). split; simpl.
    + right. left. now exists o.
    + intros Hf. apply F in Hf. rewrite Hf in E. discriminate E.
  - rewrite (inputOperator_replace o o' [NumToken v] s E). split; simpl.
    + right. right. now exists v, o.
    + intros Hf. apply F in Hf. rewrite Hf in E. discriminate E.
Qed.

Lemma step_invariant (s : Session) (a : Action) :
  session_invariant s -> session_invariant (step s a).
Proof.
  intros I. destruct a as [d| |o| | | | |]; simpl.
  - destruct I as [P F]. unfold inputDigit.
    destruct (justEvaluated s) eqn:Hf.
    + split; simpl; [exact P | discriminate].
    + destruct (display s =? "0")%string; [|destruct (display s =? "-0")%string];
        (split; simpl; [exact P | exact F]).
  - destruct I as [P F]. unfold inputDecimal.
    destruct (justEvaluated s) eqn:Hf.
    + split; simpl; [exact P | discriminate].
    + destruct (negb _); split; simpl; try exact P; try exact F.
      now rewrite Hf.
  - now apply inputOperator_invariant.
  - unfold evaluate. split.
    + left. now destruct (match JS.last_elem _ with Some (OpToken _) => _ | _ => _ end).
    + intros _. now destruct (match JS.last_elem _ with Some (OpToken _) => _ | _ => _ end).
  - destruct I as [P F]. unfold backspace.
    destruct (justEvaluated s) eqn:Hf; split; simpl; try exact P; try exact F.
    discriminate.
  - split; simpl; [now left | reflexivity].
  - exact I.
  - destruct I as [P F]. unfold percent.
    destruct (JS.isNaN _); split; simpl; assumption.
Qed.

Lemma reachable_invariant (s : Session) :
  reachable s -> session_invariant s.
Proof.
  induction 1 as [|s a _ IH].
  - split; [now left | reflexivity].
  - now apply step_invariant.
Qed.

End Session.

(** *** The claims on the session *)

(** C2, as the code has it: [evaluate] sets the flag and the next digit or
    decimal entry resets it; [inputOperator] leaves the flag as it is only
    when it replaces a trailing operator and resets it otherwise, which is
    the case in every reachable session whose flag is set (its pending
    sequence is empty). *)
Theorem justEvaluated_flag (toLocaleString : float -> nat -> string) (s : Session) :
  justEvaluated (evaluate toLocaleString s) = true /\
  (justEvaluated s = true ->
     (forall d, justEvaluated (inputDigit d s) = false) /\
     justEvaluated (inputDecimal s) = false) /\
  (forall o,
     justEvaluated (inputOperator o s) =
     match JS.last_elem (tokens s) with
     | Some (OpToken _) => justEvaluated s
     | _ => false
     end) /\
  (reachable toLocaleString s -> justEvaluated s = true ->
     forall o, justEvaluated (inputOperator o s) = false).
Proof.
  split; [|split; [|split]].
  - unfold evaluate.
    now destruct (match JS.last_elem _ with Some (OpToken _) => _ | _ => _ end).
  - intros Hf. unfold inputDigit, inputDecimal. rewrite Hf. now split.
  - intros o. unfold inputOperator.
    now destruct (JS.last_elem (tokens s)) as [[v|o']|].
  - intros Hs Hf o.
    destruct (reachable_invariant toLocaleString s Hs) as [_ F].
    unfold inputOperator. now rewrite (F Hf).
Qed.

Lemma justEvaluated_flag_witness :
  justEvaluated (inputOperator Plus result_session) = false.
Proof.
  apply (justEvaluated_flag EnUS.toLocaleString result_session).
  - apply reachable_run. constructor.
  - reflexivity.
Defined.

(** C2, as stated, fails: after 6 = the flag is set, and entering + resets it. *)
Lemma inputOperator_resets_flag :
  reachable EnUS.toLocaleString result_session /\
  result_session = mkSession "6" [] true /\
  inputOperator Plus result_session = mkSession "0" [NumToken 6; OpToken Plus] false.
Proof.
  split; [apply reachable_run; constructor | split; reflexivity].
Qed.

(** C6: when the pending sequence ends in an operator, [inputOperator]
    replaces that operator and leaves the display, the flag and the pending
    numbers as they are; so 5 + × 3 = ends in the session that 5 × 3 = ends
    in, with the display 15 (where the host writes 15 so). *)
Theorem operator_replacement (toLocaleString : float -> nat -> string)
  (s : Session) (o o' : Operator) (ts : list Token)
  (H15 : toLocaleString 15%float 10%nat = "15")
  (Hts : tokens s = JS.push ts (OpToken o')) :
  inputOperator o s = mkSession (display s) (JS.push ts (OpToken o)) (justEvaluated s) /\
  filter is_num (tokens (inputOperator o s)) = filter is_num (tokens s) /\
  run toLocaleString
    [ADigit D5; AOperator Plus; AOperator Times; ADigit D3; AEvaluate] initial
  = run toLocaleString [ADigit D5; AOperator Times; ADigit D3; AEvaluate] initial /\
  run toLocaleString [ADigit D5; AOperator Times; ADigit D3; AEvaluate] initial
  = mkSession "15" [] true.
Proof.
  rewrite (inputOperator_replace o o' ts s Hts), Hts.
  split; [reflexivity|]. split.
  - simpl. unfold JS.push. rewrite !filter_app. reflexivity.
  - split; [reflexivity|]. rewrite <- H15. reflexivity.
Qed.

Lemma operator_replacement_witness :
  inputOperator Times (mkSession "0" [NumToken 5; OpToken Plus] false)
  = mkSession "0" [NumToken 5; OpToken Times] false.
Proof.
  apply (operator_replacement EnUS.toLocaleString
           (mkSession "0" [NumToken 5; OpToken Plus] false) Times Plus [NumToken 5]);
    reflexivity.
Defined.

(** C8, as the code has it: in every reachable session the pending sequence
    is empty, a lone operator, or a number followed by an operator, so it
    never ends in two numbers or in two operators.  [inputOperator] appends
    a number and an operator, or replaces a trailing operator, or, when the
    display does not parse as a number and the sequence is empty, appends
    the operator alone; every other operation leaves the sequence as it is
    or empties it. *)
Theorem pending_tokens_invariant (toLocaleString : float -> nat -> string)
  (s : Session) (Hs : reachable toLocaleString s) :
  pending_shape (tokens s) /\
  ends_in_same_kind (tokens s) = false /\
  (forall o,
     (JS.isNaN (JS.parseFloat (display s)) = false /\
      tokens (inputOperator o s)
      = tokens s ++ [NumToken (JS.parseFloat (display s)); OpToken o]) \/
     (JS.isNaN (JS.parseFloat (display s)) = true /\ tokens s = [] /\
      tokens (inputOperator o s) = [OpToken o]) \/
     (exists ts o', tokens s = ts ++ [OpToken o'] /\
                    tokens (inputOperator o s) = ts ++ [OpToken o])) /\
  (forall a, (forall o, a <> AOperator o) ->
     tokens (step toLocaleString s a) = tokens s \/
     tokens (step toLocaleString s a) = []).
Proof.
  destruct (reachable_invariant toLocaleString s Hs) as [P F].
  split; [exact P|]. split; [now apply pending_shape_ends|]. split.
  - intros o. destruct P as [E | [[o' E] | (v & o' & E)]].
    + unfold inputOperator. rewrite E. simpl.
      destruct (JS.isNaN _); [right; left | left]; now repeat split.
    + right. right. exists [], o'. split; [exact E|].
      now rewrite (inputOperator_replace o o' [] s E).
    + right. right. exists [NumToken v], o'. split; [exact E|].
      now rewrite (inputOperator_replace o o' [NumToken v] s E).
  - intros a Ha. destruct a as [d| |o| | | | |]; simpl.
    + left. unfold inputDigit.
      destruct (justEvaluated s); [reflexivity|].
      destruct (display s =? "0")%string; [reflexivity|].
      now destruct (display s =? "-0")%string.
    + left. unfold inputDecimal.
      destruct (justEvaluated s); [reflexivity|]. now destruct (negb _).
    + now elim (Ha o).
    + right. unfold evaluate.
      now destruct (match JS.last_elem _ with Some (OpToken _) => _ | _ => _ end).
    + left. unfold backspace. now destruct (justEvaluated s).
    + now right.
    + now left.
    + left. unfold percent. now destruct (JS.isNaN _).
Qed.

Lemma pending_tokens_invariant_witness :
  ends_in_same_kind (tokens error_session) = false.
Proof.
  apply (pending_tokens_invariant EnUS.toLocaleString error_session).
  apply reachable_run. constructor.
Defined.

(** C8, as stated, fails in its account of [inputOperator]: after 5 ÷ 0 =
    the display is Error and the pending sequence is empty, and entering +
    appends the operator alone, neither a number with it nor in the place
    of a trailing operator. *)
Lemma inputOperator_appends_lone_operator :
  reachable EnUS.toLocaleString error_session /\
  error_session = mkSession "Error" [] true /\
  JS.last_elem (tokens error_session) = None /\
  tokens (inputOperator Plus error_session) = [OpToken Plus].
Proof.
  split; [apply reachable_run; constructor | repeat split].
Qed.

(** C9, as the code has it: while the flag is not set, [inputDecimal]
    leaves a buffer that has a decimal point as it is and appends the point
    to one that has none; when the flag is set it starts the buffer 0. and
    resets the flag, whatever the buffer holds.  In every case a second
    [inputDecimal] changes nothing, and two of them on the initial session
    give 0. and not two points. *)
Theorem inputDecimal_idempotent (s : Session) :
  (justEvaluated s = false -> JS.includes "." (display s) = true ->
     inputDecimal s = s) /\
  (justEvaluated s = false -> JS.includes "." (display s) = false ->
     inputDecimal s = mkSession (display s ++ ".") (tokens s) false) /\
  (justEvaluated s = true -> inputDecimal s = mkSession "0." (tokens s) false) /\
  inputDecimal (inputDecimal s) = inputDecimal s /\
  display (inputDecimal (inputDecimal initial)) = "0.".
Proof.
  assert (A : forall t, JS.includes "." (t ++ ".") = true).
  { induction t as [|c t IH]; [reflexivity|]. simpl. rewrite IH. apply orb_true_r. }
  unfold inputDecimal. destruct s as [d ts f]. simpl.
  destruct f; repeat split; try discriminate; try reflexivity.
  - intros _ H. now rewrite H.
  - intros _ H. now rewrite H.
  - destruct (JS.includes "." d) eqn:H; simpl.
    + now rewrite H.
    + now rewrite A.
Qed.

Lemma inputDecimal_idempotent_witness :
  inputDecimal (mkSession "0." [] false) = mkSession "0." [] false.
Proof.
  apply (inputDecimal_idempotent (mkSession "0." [] false)); reflexivity.
Defined.

(** C9, as stated, fails: after 5 ÷ 2 = the buffer 2.5 has a decimal point,
    and [inputDecimal] is no no-op on it: the buffer becomes 0. *)
Lemma inputDecimal_after_result :
  reachable EnUS.toLocaleString fraction_session /\
  fraction_session = mkSession "2.5" [] true /\
  JS.includes "." (display fraction_session) = true /\
  inputDecimal fraction_session = mkSession "0." [] false.
Proof.
  split; [apply reachable_run; constructor | repeat split].
Qed.

(** *** The display buffer *)

Lemma all_chars_app (p : ascii -> bool) (s t : string) :
  all_chars p (s ++ t) = all_chars p s && all_chars p t.
Proof.
  induction s as [|c s IH]; [reflexivity|]. simpl. now rewrite IH, andb_assoc.
Qed.

Lemma count_char_app (c : ascii) (s t : string) :
  count_char c (s ++ t) = (count_char c s + count_char c t)%nat.
Proof.
  induction s as [|d s IH]; [reflexivity|]. simpl. rewrite IH. lia.
Qed.

Lemma includes_count (c : ascii) (s : string) :
  JS.includes c s = false -> count_char c s = 0%nat.
Proof.
  induction s as [|d s IH]; [reflexivity|]. simpl.
  destruct (Ascii.eqb c d); [discriminate|]. exact IH.
Qed.

Lemma all_chars_substring (p : ascii -> bool) (n : nat) (s : string) :
  all_chars p s = true -> all_chars p (substring 0 n s) = true.
Proof.
  revert n. induction s as [|c s IH]; intros [|n] H; try reflexivity.
  simpl in *. apply andb_true_iff in H as [Hc Hs]. now rewrite Hc, IH.
Qed.

Lemma count_char_substring (c : ascii) (n : nat) (s : string) :
  (count_char c (substring 0 n s) <= count_char c s)%nat.
Proof.
  revert n. induction s as [|d s IH]; intros [|n]; simpl; try lia.
  specialize (IH n). lia.
Qed.

Lemma substring_all (s : string) : substring 0 (String.length s) s = s.
Proof. induction s as [|c s IH]; [reflexivity|]. simpl. now rewrite IH. Qed.

Lemma numeral_no_minus (s : string) :
  all_chars numeral_char s = true -> unsigned_part s = s.
Proof.
  destruct s as [|c s]; [reflexivity|]. simpl. intros H.
  apply andb_true_iff in H as [Hc _].
  destruct c as [[|] [|] [|] [|] [|] [|] [|] [|]]; try reflexivity; discriminate Hc.
Qed.

Lemma well_formed_digit (d : Digit) :
  all_chars numeral_char (digit_key d) = true /\ count_char "." (digit_key d) = 0%nat.
Proof. destruct d; split; reflexivity. Qed.

(** Appending numeral characters that bring no second decimal point. *)
Lemma well_formed_append (s t : string) :
  well_formed_buffer s = true ->
  all_chars numeral_char t = true ->
  (count_char "." s + count_char "." t <= 1)%nat ->
  well_formed_buffer (s ++ t) = true.
Proof.
  unfold well_formed_buffer. intros H Ht Hc.
  apply andb_true_iff in H as [_ Hs].
  apply andb_true_iff. split.
  - rewrite count_char_app. now apply Nat.leb_le.
  - destruct s as [|c s]; [simpl; now rewrite numeral_no_minus|].
    assert (E : unsigned_part (String c s ++ t) = (unsigned_part (String c s) ++ t)%string).
    { simpl. destruct c as [[|] [|] [|] [|] [|] [|] [|] [|]]; reflexivity. }
    rewrite E, all_chars_app, Hs, Ht. reflexivity.
Qed.

Lemma inputDigit_well_formed (d : Digit) (s : Session) :
  well_formed_buffer (display s) = true ->
  well_formed_buffer (display (inputDigit (digit_key d) s)) = true.
Proof.
  intros H. unfold inputDigit.
  destruct (justEvaluated s); [now destruct d|].
  destruct (display s =? "0")%string; [now destruct d|].
  destruct (display s =? "-0")%string; [now destruct d|].
  simpl. destruct (well_formed_digit d) as [Hd Hc].
  apply well_formed_append; [exact H | exact Hd |].
  rewrite Hc. unfold well_formed_buffer in H.
  apply andb_true_iff in H as [H _]. apply Nat.leb_le in H. lia.
Qed.

Lemma inputDecimal_well_formed (s : Session) :
  well_formed_buffer (display s) = true ->
  well_formed_buffer (display (inputDecimal s)) = true.
Proof.
  intros H. unfold inputDecimal.
  destruct (justEvaluated s); [reflexivity|].
  destruct (JS.includes "." (display s)) eqn:Hi; simpl; [exact H|].
  apply well_formed_append; [exact H | reflexivity |].
  rewrite (includes_count _ _ Hi). simpl. lia.
Qed.

Lemma slice_drop_last_well_formed (s : string) :
  well_formed_buffer s = true -> well_formed_buffer (JS.slice_drop_last s) = true.
Proof.
  unfold well_formed_buffer, JS.slice_drop_last. intros H.
  apply andb_true_iff in H as [Hc Hs]. apply Nat.leb_le in Hc.
  apply andb_true_iff. split.
  - apply Nat.leb_le.
    pose proof (count_char_substring "." (String.length s - 1) s). lia.
  - destruct s as [|c s]; [reflexivity|].
    simpl String.length. rewrite Nat.sub_succ, Nat.sub_0_r.
    destruct s as [|c' s']; [reflexivity|].
    change (substring 0 (String.length (String c' s')) (String c (String c' s')))
      with (String c (substring 0 (String.length s') (String c' s'))).
    assert (C : c = "-"%char \/ unsigned_part (String c (String c' s')) = String c (String c' s')
                /\ forall t, unsigned_part (String c t) = String c t).
    { destruct c as [[|] [|] [|] [|] [|] [|] [|] [|]];
        try (right; split; [reflexivity | intros t; reflexivity]).
      now left. }
    destruct C as [-> | [E1 E2]].
    + change (all_chars numeral_char
                (substring 0 (String.length s') (String c' s')) = true).
      change (all_chars numeral_char (String c' s') = true) in Hs.
      now apply all_chars_substring.
    + rewrite E1 in Hs. rewrite E2.
      apply (all_chars_substring numeral_char (S (String.length s'))
               (String c (String c' s')) Hs).
Qed.

Lemma backspace_well_formed (s : Session) :
  well_formed_buffer (display s) = true ->
  well_formed_buffer (display (backspace s)) = true.
Proof.
  intros H. unfold backspace.
  destruct (justEvaluated s); [reflexivity|]. simpl.
  destruct (1 <? String.length (display s))%nat.
  - destruct (JS.slice_drop_last (display s) =? "-")%string; [reflexivity|].
    now apply slice_drop_last_well_formed.
  - reflexivity.
Qed.

Lemma toggleSign_well_formed (s : Session) :
  well_formed_buffer (display s) = true ->
  well_formed_buffer (display (toggleSign s)) = true.
Proof.
  unfold toggleSign, well_formed_buffer. simpl.
  destruct (display s) as [|c r]; [reflexivity|].
  intros H. apply andb_true_iff in H as [Hc Hs].
  assert (C : c = "-"%char \/
              (JS.startsWith "-" (String c r) = false /\
               unsigned_part (String c r) = String c r)).
  { unfold JS.startsWith.
    destruct c as [[|] [|] [|] [|] [|] [|] [|] [|]];
      try (right; split; reflexivity). now left. }
  destruct C as [-> | [E1 E2]].
  - assert (E : JS.startsWith "-" (String "-" r) = true).
    { unfold JS.startsWith. simpl. now destruct r. }
    rewrite E. unfold JS.slice_from_1. simpl String.length.
    rewrite Nat.sub_succ, Nat.sub_0_r.
    change (substring 1 (String.length r) (String "-" r))
      with (substring 0 (String.length r) r).
    rewrite substring_all. simpl in Hs, Hc.
    rewrite (numeral_no_minus r Hs), Hs, Hc. reflexivity.
  - rewrite E1. destruct (String c r =? "0")%string.
    + now rewrite Hc, Hs.
    + rewrite E2 in Hs. simpl unsigned_part.
      change (count_char "." (String "-" (String c r)))
        with (count_char "." (String c r)).
      now rewrite Hc, Hs.
Qed.

Lemma typing_step_well_formed (toLocaleString : float -> nat -> string)
  (s : Session) (a : Action) :
  is_typing a = true ->
  well_formed_buffer (display s) = true ->
  well_formed_buffer (display (step toLocaleString s a)) = true.
Proof.
  intros Ha H. destruct a as [d| |o| | | | |]; simpl; try discriminate Ha.
  - now apply inputDigit_well_formed.
  - now apply inputDecimal_well_formed.
  - unfold inputOperator.
    destruct (JS.last_elem (tokens s)) as [[v|o']|]; try reflexivity. exact H.
  - now apply backspace_well_formed.
  - reflexivity.
  - now apply toggleSign_well_formed.
Qed.

Lemma evaluate_sets_flag (toLocaleString : float -> nat -> string) (s : Session) :
  justEvaluated (evaluate toLocaleString s) = true.
Proof.
  unfold evaluate.
  now destruct (match JS.last_elem _ with Some (OpToken _) => _ | _ => _ end).
Qed.

(** Every operation but [percent] keeps the buffer well formed while the
    flag is not set: a result is written with the flag set, and the next
    digit, decimal point, backspace, clear or appended operator starts a
    fresh buffer. *)
Lemma step_well_formed_unless_result (toLocaleString : float -> nat -> string)
  (s : Session) (a : Action) :
  is_not_percent a = true ->
  (justEvaluated s = false -> well_formed_buffer (display s) = true) ->
  justEvaluated (step toLocaleString s a) = false ->
  well_formed_buffer (display (step toLocaleString s a)) = true.
Proof.
  intros Ha I F. destruct (justEvaluated s) eqn:Hf.
  - destruct a as [d| |o| | | | |]; simpl in *; try discriminate Ha.
    + unfold inputDigit. rewrite Hf. now destruct d.
    + unfold inputDecimal. now rewrite Hf.
    + unfold inputOperator in *.
      destruct (JS.last_elem (tokens s)) as [[v|o']|]; simpl in *; try reflexivity.
      rewrite Hf in F. discriminate F.
    + rewrite evaluate_sets_flag in F. discriminate F.
    + unfold backspace. now rewrite Hf.
    + reflexivity.
    + unfold toggleSign in F. simpl in F. rewrite Hf in F. discriminate F.
  - destruct a as [d| |o| | | | |]; try discriminate Ha;
      try (apply typing_step_well_formed; [reflexivity | now apply I]).
    simpl in F. rewrite evaluate_sets_flag in F. discriminate F.
Qed.

Lemma typing_step_flag (toLocaleString : float -> nat -> string)
  (s : Session) (a : Action) :
  is_typing a = true -> justEvaluated s = false ->
  justEvaluated (step toLocaleString s a) = false.
Proof.
  intros Ha Hf. destruct a as [d| |o| | | | |]; simpl; try discriminate Ha.
  - unfold inputDigit. rewrite Hf.
    destruct (display s =? "0")%string; [reflexivity|].
    now destruct (display s =? "-0")%string.
  - unfold inputDecimal. rewrite Hf. destruct (negb _); [reflexivity | exact Hf].
  - unfold inputOperator.
    destruct (JS.last_elem (tokens s)) as [[v|o']|]; try reflexivity. exact Hf.
  - unfold backspace. now rewrite Hf.
  - reflexivity.
  - exact Hf.
Qed.

(** C3, as the code has it: in every session reached from the initial one by
    the editing operations other than [percent], [evaluate] included, the
    display buffer holds at most one decimal point and, after an optional
    leading minus sign, digits and decimal points only, whenever the
    just-evaluated flag is not set.  While the flag is set the buffer holds
    the text of a result, which [evaluate] wrote.  A trace without
    [evaluate] never sets the flag, so its buffer is always of that form. *)
Theorem buffer_well_formed_unless_result (toLocaleString : float -> nat -> string)
  (trace : list Action) (Htrace : forallb is_not_percent trace = true) :
  (justEvaluated (run toLocaleString trace initial) = false ->
   well_formed_buffer (display (run toLocaleString trace initial)) = true) /\
  (forallb is_typing trace = true ->
   justEvaluated (run toLocaleString trace initial) = false /\
   well_formed_buffer (display (run toLocaleString trace initial)) = true).
Proof.
  assert (G : forall s,
             (justEvaluated s = false -> well_formed_buffer (display s) = true) ->
             justEvaluated (run toLocaleString trace s) = false ->
             well_formed_buffer (display (run toLocaleString trace s)) = true).
  { induction trace as [|a trace IH]; intros s Hs; [exact Hs|].
    simpl in Htrace. apply andb_true_iff in Htrace as [Ha Htrace].
    simpl. apply (IH Htrace).
    now apply step_well_formed_unless_result. }
  assert (F : forallb is_typing trace = true ->
              forall s, justEvaluated s = false ->
                        justEvaluated (run toLocaleString trace s) = false).
  { clear. induction trace as [|a trace IH]; intros Ht s Hs; [exact Hs|].
    simpl in Ht. apply andb_true_iff in Ht as [Ha Ht].
    simpl. apply (IH Ht). now apply typing_step_flag. }
  split.
  - apply G. reflexivity.
  - intros Ht. pose proof (F Ht initial eq_refl) as Hf.
    split; [exact Hf | apply G; [reflexivity | exact Hf]].
Qed.

(** An instance with a result in the middle: 5 + 3 = 7 ends with the fresh
    buffer 7. *)
Lemma buffer_well_formed_unless_result_witness :
  well_formed_buffer
    (display (run EnUS.toLocaleString
                [ADigit D5; AOperator Plus; ADigit D3; AEvaluate; ADigit D7;
                 ADecimal; AToggleSign] initial)) = true.
Proof.
  apply (proj1 (buffer_well_formed_unless_result EnUS.toLocaleString
                  [ADigit D5; AOperator Plus; ADigit D3; AEvaluate; ADigit D7;
                   ADecimal; AToggleSign] eq_refl)).
  reflexivity.
Defined.

(** C3, as stated, fails: 5 ÷ 0 = is a trace of editing operations, and it
    leaves the text Error in the display buffer. *)
Lemma display_buffer_Error :
  reachable EnUS.toLocaleString error_session /\
  display error_session = "Error" /\
  well_formed_buffer (display error_session) = false.
Proof.
  split; [apply reachable_run; constructor | split; reflexivity].
Qed.

(** [percent] writes the text of a number too: after . 0 0 0 0 1 % the
    buffer holds an exponent. *)
Lemma percent_buffer_exponent :
  display (run EnUS.toLocaleString
             [ADecimal; ADigit D0; ADigit D0; ADigit D0; ADigit D0; ADigit D1; APercent]
             initial) = "1.0000000000000001e-7" /\
  well_formed_buffer "1.0000000000000001e-7" = false.
Proof. split; reflexivity. Qed.

(** After a result, the next digit, decimal point or backspace starts a
    fresh buffer, whatever text the display holds. *)
Lemma fresh_buffer_after_result (toLocaleString : float -> nat -> string)
  (s : Session) (a : Action) :
  justEvaluated s = true ->
  match a with
  | ADigit _ | ADecimal | ABackspace | AClear => True
  | _ => False
  end ->
  well_formed_buffer (display (step toLocaleString s a)) = true /\
  justEvaluated (step toLocaleString s a) = false.
Proof.
  intros Hf Ha. destruct a as [d| |o| | | | |]; try contradiction; simpl.
  - unfold inputDigit. rewrite Hf. now destruct d.
  - unfold inputDecimal. now rewrite Hf.
  - unfold backspace. now rewrite Hf.
  - now split.
Qed.

(** ** The en-US host *)

Lemma forallb_rev {A : Type} (p : A -> bool) (l : list A) :
  forallb p (rev l) = forallb p l.
Proof.
  induction l as [|x l IH]; [reflexivity|].
  simpl. rewrite forallb_app, IH. simpl. rewrite andb_true_r. apply andb_comm.
Qed.

Lemma drop_zeros_suffix (ds : list ascii) :
  (List.length (EnUS.drop_zeros ds) <= List.length ds)%nat /\
  (forallb JS.is_digit ds = true -> forallb JS.is_digit (EnUS.drop_zeros ds) = true).
Proof.
  induction ds as [|c ds [IH1 IH2]]; [now split|].
  assert (C : EnUS.drop_zeros (c :: ds) = EnUS.drop_zeros ds \/
              EnUS.drop_zeros (c :: ds) = c :: ds).
  { simpl. destruct c as [[|] [|] [|] [|] [|] [|] [|] [|]]; auto. }
  destruct C as [-> | ->].
  - split; [simpl; lia|]. simpl. intros H. apply andb_true_iff in H as [_ H]. auto.
  - now split.
Qed.

Lemma strip_trailing_zeros_spec (ds : list ascii) :
  (List.length (EnUS.strip_trailing_zeros ds) <= List.length ds)%nat /\
  (forallb JS.is_digit ds = true ->
   forallb JS.is_digit (EnUS.strip_trailing_zeros ds) = true).
Proof.
  unfold EnUS.strip_trailing_zeros.
  destruct (drop_zeros_suffix (rev ds)) as [L D]. split.
  - rewrite length_rev. now rewrite length_rev in L.
  - intros H. rewrite forallb_rev. apply D. now rewrite forallb_rev.
Qed.

Lemma group_rev_chars (ds : list ascii) (k : nat) :
  forallb JS.is_digit ds = true ->
  forallb (fun c => JS.is_digit c || Ascii.eqb c "," || Ascii.eqb c "-")
    (EnUS.group_rev ds k) = true.
Proof.
  revert k. induction ds as [|c ds IH]; intros k H; [reflexivity|].
  simpl in H. apply andb_true_iff in H as [Hc Hds].
  assert (E : forallb (fun c => JS.is_digit c || Ascii.eqb c "," || Ascii.eqb c "-")
                (c :: EnUS.group_rev ds 1) = true
              /\ forallb (fun c => JS.is_digit c || Ascii.eqb c "," || Ascii.eqb c "-")
                (c :: EnUS.group_rev ds (S k)) = true).
  { cbn [forallb]. now rewrite Hc, !IH. }
  destruct E as [E1 E2].
  destruct k as [|[|[|[|k]]]]; cbn [EnUS.group_rev]; try exact E2.
  cbn [forallb]. cbn [forallb] in E1. exact E1.
Qed.

(** The en-US text of a finite number has at most [d] fraction digits. *)
Lemma EnUS_toLocaleString_form (x : float) (d : nat) :
  JS.isFinite x = true -> fixed_form d (EnUS.toLocaleString x d).
Proof.
  intros Hx. unfold fixed_form, EnUS.toLocaleString.
  rewrite list_ascii_of_string_of_list_ascii.
  destruct (finite_cases x Hx) as [[s ->] | (s & m & e & ->)].
  - exists (JS.sign_prefix s ++ ["0"%char]), [].
    rewrite app_nil_r. split; [reflexivity|]. split; [now destruct s|].
    split; [simpl; lia | reflexivity].
  - set (n := EnUS.scaled_round d (PrimFloat.abs x) m e).
    set (fp := (n mod 10 ^ Z.of_nat d)%Z).
    set (ip := (n / 10 ^ Z.of_nat d)%Z).
    exists (JS.sign_prefix s ++ EnUS.group3 (JS.Z_digits ip)),
      (EnUS.strip_trailing_zeros (JS.pad_left d (JS.Z_digits fp))).
    split; [now rewrite <- app_assoc|].
    destruct (strip_trailing_zeros_spec (JS.pad_left d (JS.Z_digits fp))) as [L D].
    split; [|split].
    + rewrite forallb_app. apply andb_true_iff. split; [now destruct s|].
      unfold EnUS.group3. rewrite forallb_rev. apply group_rev_chars.
      rewrite forallb_rev. apply Z_digits_digits.
    + destruct d as [|d].
      * replace fp with 0%Z by (unfold fp; simpl; now rewrite Z.mod_1_r).
        cbv. lia.
      * assert (B : (fp < 10 ^ Z.of_nat (S d))%Z).
        { apply Z.mod_pos_bound. apply Z.pow_pos_nonneg; lia. }
        rewrite (pad_left_length (S d) (JS.Z_digits fp)
                   (Z_digits_length fp (S d) ltac:(lia) B)) in L.
        exact L.
    + apply D. apply pad_left_digits. apply Z_digits_digits.
Qed.

(** ** The formatter on a host *)

(** A text in decimal notation holds digits, separators, a sign and the
    point only. *)
Lemma fixed_form_chars (d : nat) (s : string) :
  fixed_form d s -> forallb notation_char (list_ascii_of_string s) = true.
Proof.
  intros (ip & fds & E & Hip & _ & Hfds). rewrite E, forallb_app.
  assert (A : forall l, forallb (fun c => JS.is_digit c || Ascii.eqb c ","
                                          || Ascii.eqb c "-") l = true ->
                        forallb notation_char l = true).
  { induction l as [|c l IH]; [reflexivity|]. cbn [forallb]. intros H.
    apply andb_true_iff in H as [Hc Hl]. unfold notation_char at 1.
    now rewrite Hc, IH. }
  assert (B : forall l, forallb JS.is_digit l = true ->
                        forallb notation_char l = true).
  { induction l as [|c l IH]; [reflexivity|]. cbn [forallb]. intros H.
    apply andb_true_iff in H as [Hc Hl]. unfold notation_char at 1.
    now rewrite Hc, IH. }
  rewrite (A ip Hip). destruct fds as [|c fds]; [reflexivity|].
  cbn [forallb andb]. change (notation_char ".") with true.
  now apply (B (c :: fds)).
Qed.

(** No text is in both notations: the exponential one holds the letter e. *)
Lemma fixed_not_exponential (d f : nat) (s : string) :
  fixed_form d s -> exponential_form f s -> False.
Proof.
  intros Hfix (sign & c0 & frac & c & ex & E & _).
  pose proof (fixed_form_chars d s Hfix) as H. rewrite E in H.
  rewrite forallb_forall in H.
  specialize (H "e"%char). discriminate H.
  apply in_or_app. right. right. right. apply in_or_app. right. now left.
Qed.

(** C7: [formatNumber] gives Error for every number that is not finite and
    formats negative zero as it formats zero.  For a finite number it writes
    the exponential notation with 6 digits after the point exactly when the
    absolute value is at least 1e12 or is not zero and below 1e-6, and
    otherwise what the host writes for at most 10 fraction digits, which is
    the decimal notation with at most 10 digits after the point on a host
    that writes finite numbers so. *)
Theorem formatNumber_cases (toLocaleString : float -> nat -> string)
  (Hhost : forall x d, JS.isFinite x = true -> fixed_form d (toLocaleString x d))
  (n : float) :
  (JS.isFinite n = false -> formatNumber toLocaleString n = "Error") /\
  formatNumber toLocaleString (-0) = formatNumber toLocaleString 0 /\
  (JS.is_neg_zero n = true ->
     formatNumber toLocaleString n = formatNumber toLocaleString 0 /\
     formatNumber toLocaleString 0 = toLocaleString 0%float 10%nat) /\
  (JS.isFinite n = true -> JS.is_neg_zero n = false ->
     (exponential_range n = true ->
        formatNumber toLocaleString n = JS.toExponential n 6 /\
        exponential_form 6 (formatNumber toLocaleString n)) /\
     (exponential_range n = false ->
        formatNumber toLocaleString n = toLocaleString n 10%nat /\
        fixed_form 10 (formatNumber toLocaleString n))) /\
  (JS.isFinite n = true ->
     (exponential_form 6 (formatNumber toLocaleString n)
      <-> exponential_range n = true) /\
     (fixed_form 10 (formatNumber toLocaleString n)
      <-> exponential_range n = false)).
Proof.
  assert (Z : formatNumber toLocaleString 0 = toLocaleString 0%float 10%nat)
    by reflexivity.
  assert (C : JS.isFinite n = true -> JS.is_neg_zero n = false ->
              (exponential_range n = true ->
                 formatNumber toLocaleString n = JS.toExponential n 6 /\
                 exponential_form 6 (formatNumber toLocaleString n)) /\
              (exponential_range n = false ->
                 formatNumber toLocaleString n = toLocaleString n 10%nat /\
                 fixed_form 10 (formatNumber toLocaleString n))).
  { intros Hfin Hnz.
    assert (E : formatNumber toLocaleString n =
                if exponential_range n then JS.toExponential n 6
                else toLocaleString n 10%nat).
    { unfold formatNumber. rewrite Hfin, Hnz. reflexivity. }
    split; intros Hr; rewrite E, Hr; (split; [reflexivity|]).
    - now apply toExponential_form.
    - now apply Hhost. }
  split; [|split; [|split; [|split]]].
  - intros H. unfold formatNumber. now rewrite H.
  - reflexivity.
  - intros H. apply is_neg_zero_eq in H. subst n. split; [reflexivity | exact Z].
  - exact C.
  - intros Hfin.
    assert (D : (exponential_range n = true /\
                 exponential_form 6 (formatNumber toLocaleString n)) \/
                (exponential_range n = false /\
                 fixed_form 10 (formatNumber toLocaleString n))).
    { destruct (JS.is_neg_zero n) eqn:Hnz.
      - apply is_neg_zero_eq in Hnz. subst n. right. split; [reflexivity|].
        change (formatNumber toLocaleString (-0))
          with (toLocaleString 0%float 10%nat).
        apply Hhost. reflexivity.
      - destruct (C Hfin eq_refl) as [C1 C2].
        destruct (exponential_range n) eqn:Hr.
        + left. split; [reflexivity | now apply C1].
        + right. split; [reflexivity | now apply C2]. }
    destruct D as [[Hr He] | [Hr Hx]]; rewrite Hr; split; split; intros H;
      try reflexivity; try assumption; try discriminate H.
    + exfalso. exact (fixed_not_exponential _ _ _ H He).
    + exfalso. exact (fixed_not_exponential _ _ _ Hx H).
Qed.

(** Instances on the en-US host: 10^12 is in exponential notation, 1234.5
    in decimal notation, infinity is Error and negative zero is written as
    zero. *)
Lemma formatNumber_cases_witness :
  (formatNumber EnUS.toLocaleString 1e12 = JS.toExponential 1e12 6 /\
   exponential_form 6 (formatNumber EnUS.toLocaleString 1e12)) /\
  (formatNumber EnUS.toLocaleString 1234.5 = EnUS.toLocaleString 1234.5 10 /\
   fixed_form 10 (formatNumber EnUS.toLocaleString 1234.5)) /\
  formatNumber EnUS.toLocaleString infinity = "Error" /\
  formatNumber EnUS.toLocaleString (-0) = formatNumber EnUS.toLocaleString 0.
Proof.
  split; [|split; [|split]].
  - apply (formatNumber_cases EnUS.toLocaleString EnUS_toLocaleString_form 1e12);
      reflexivity.
  - apply (formatNumber_cases EnUS.toLocaleString EnUS_toLocaleString_form 1234.5);
      reflexivity.
  - apply (formatNumber_cases EnUS.toLocaleString EnUS_toLocaleString_form infinity).
    reflexivity.
  - exact (proj1 (proj2 (formatNumber_cases EnUS.toLocaleString
                           EnUS_toLocaleString_form 0))).
Defined.

(** ** The testable properties of the specification, on an en-US host *)

Example precedence :
  evalRPN (toRPN [NumToken 2; OpToken Plus; NumToken 3; OpToken Times; NumToken 4])
  = 14%float.
Proof. reflexivity. Qed.

Example left_associativity :
  evalRPN (toRPN [NumToken 8; OpToken Divide; NumToken 4; OpToken Divide; NumToken 2])
  = 1%float.
Proof. reflexivity. Qed.

Example chaining :
  run EnUS.toLocaleString
    [ADigit D6; AEvaluate; AOperator Plus; ADigit D4; AEvaluate] initial
  = mkSession "10" [] true.
Proof. reflexivity. Qed.

Example negative_zero_display :
  formatNumber EnUS.toLocaleString (-0) = "0" /\
  EnUS.toLocaleString (-0) 10 = "-0".
Proof. split; reflexivity. Qed.

Example backspace_on_result :
  backspace (mkSession "15" [] true) = mkSession "0" [] false.
Proof. reflexivity. Qed.

(** The second operator of an expression takes the place of the first, and
    the digits typed in between stay in the display: 2 + 3 × 4 = shows 68. *)
Example second_operator_replaces :
  run EnUS.toLocaleString
    [ADigit D2; AOperator Plus; ADigit D3; AOperator Times; ADigit D4; AEvaluate]
    initial
  = mkSession "68" [] true.
Proof. reflexivity. Qed.

(** * Further properties *)

(** ** Evaluation of infix expressions *)

Lemma eval_stack_app (p q : list Token) (stack : list float) :
  eval_stack (p ++ q) stack =
  match eval_stack p stack with
  | Some stack' => eval_stack q stack'
  | None => None
  end.
Proof.
  revert stack. induction p as [|[v|o] p IH]; intros stack; simpl.
  - reflexivity.
  - apply IH.
  - destruct stack as [|b [|a below]]; try reflexivity. apply IH.
Qed.

Lemma evalRPN_loop_app (p q : list Token) (stack : list float) :
  evalRPN_loop (p ++ q) stack =
  match evalRPN_loop p stack with
  | Some stack' => evalRPN_loop q stack'
  | None => None
  end.
Proof.
  revert stack. induction p as [|[v|o] p IH]; intros stack; simpl.
  - reflexivity.
  - apply IH.
  - destruct (JS.pop stack) as [b stack1]. destruct (JS.pop stack1) as [a stack2].
    destruct a as [a|]; [|reflexivity]. destruct b as [b|]; [|reflexivity]. apply IH.
Qed.

(** The loop of [toRPN] on the rest of an infix expression, from a state of
    the converter after a number. *)
Lemma toRPN_loop_infix (rest : list (Operator * float)) (output : list Token)
  (stack : OpStack) (pending : option (float * Operator)) (term : float) :
  yard_state output stack pending term ->
  eval_stack
    (let (output', ops) :=
       fold_left toRPN_body
         (flat_map (fun p => [OpToken (fst p); NumToken (snd p)]) rest)
         (output, rev stack) in
     pop_all output' ops) []
  = Some [infix_eval pending term rest].
Proof.
  revert output stack pending term.
  induction rest as [|[o n] rest IH]; intros output stack pending term H.
  - cbn [flat_map fold_left]. rewrite pop_all_rev, eval_stack_app.
    destruct H as [output t E | output a s t Ha E | output m t0 n Hm E
                  | output m a s t0 n Hm Ha E]; rewrite E; reflexivity.
  - cbn [flat_map fst snd app fold_left toRPN_body].
    rewrite pop_while_rev.
    assert (G : forall popped left pending' term',
               pop_geq (prec o) stack = (popped, left) ->
               yard_state (JS.push (output ++ map OpToken popped) (NumToken n))
                 (o :: left) pending' term' ->
               infix_eval pending term ((o, n) :: rest) = infix_eval pending' term' rest ->
               eval_stack
                 (let (output', ops) :=
                    fold_left toRPN_body
                      (flat_map (fun p => [OpToken (fst p); NumToken (snd p)]) rest)
                      (JS.push (output ++ map OpToken (fst (pop_geq (prec o) stack)))
                         (NumToken n),
                       JS.push (rev (snd (pop_geq (prec o) stack))) o) in
                  pop_all output' ops) []
               = Some [infix_eval pending term ((o, n) :: rest)]).
    { intros popped left pending' term' Ep Hs Ev. rewrite Ep, Ev. cbn [fst snd].
      change (JS.push (rev left) o) with (rev (o :: left)). now apply IH. }
    unfold JS.push in G.
    destruct H as [output t E | output a s t Ha E | output m t0 n0 Hm E
                  | output m a s t0 n0 Hm Ha E].
    + destruct o.
      * apply (G [] [] (Some (t, Plus)) n); [reflexivity | | reflexivity].
        apply ys_sum; [reflexivity|]. unfold JS.push.
        rewrite !eval_stack_app, E. reflexivity.
      * apply (G [] [] (Some (t, Minus)) n); [reflexivity | | reflexivity].
        apply ys_sum; [reflexivity|]. unfold JS.push.
        rewrite !eval_stack_app, E. reflexivity.
      * apply (G [] [] None (apply_op Times t n)); [reflexivity | | reflexivity].
        apply ys_product; [reflexivity|]. unfold JS.push.
        rewrite !eval_stack_app, E. reflexivity.
      * apply (G [] [] None (apply_op Divide t n)); [reflexivity | | reflexivity].
        apply ys_product; [reflexivity|]. unfold JS.push.
        rewrite !eval_stack_app, E. reflexivity.
    + destruct o.
      * apply (G [a] [] (Some (apply_op a s t, Plus)) n);
          [destruct a; try discriminate Ha; reflexivity | | reflexivity].
        apply ys_sum; [reflexivity|]. unfold JS.push.
        rewrite !eval_stack_app, E. reflexivity.
      * apply (G [a] [] (Some (apply_op a s t, Minus)) n);
          [destruct a; try discriminate Ha; reflexivity | | reflexivity].
        apply ys_sum; [reflexivity|]. unfold JS.push.
        rewrite !eval_stack_app, E. reflexivity.
      * apply (G [] [a] (Some (s, a)) (apply_op Times t n));
          [destruct a; try discriminate Ha; reflexivity | | reflexivity].
        apply ys_sum_product; [reflexivity | exact Ha |]. unfold JS.push.
        rewrite !eval_stack_app, E. reflexivity.
      * apply (G [] [a] (Some (s, a)) (apply_op Divide t n));
          [destruct a; try discriminate Ha; reflexivity | | reflexivity].
        apply ys_sum_product; [reflexivity | exact Ha |]. unfold JS.push.
        rewrite !eval_stack_app, E. reflexivity.
    + destruct o.
      * apply (G [m] [] (Some (apply_op m t0 n0, Plus)) n);
          [destruct m; try discriminate Hm; reflexivity | | reflexivity].
        apply ys_sum; [reflexivity|]. unfold JS.push.
        rewrite !eval_stack_app, E. reflexivity.
      * apply (G [m] [] (Some (apply_op m t0 n0, Minus)) n);
          [destruct m; try discriminate Hm; reflexivity | | reflexivity].
        apply ys_sum; [reflexivity|]. unfold JS.push.
        rewrite !eval_stack_app, E. reflexivity.
      * apply (G [m] [] None (apply_op Times (apply_op m t0 n0) n));
          [destruct m; try discriminate Hm; reflexivity | | reflexivity].
        apply ys_product; [reflexivity|]. unfold JS.push.
        rewrite !eval_stack_app, E. reflexivity.
      * apply (G [m] [] None (apply_op Divide (apply_op m t0 n0) n));
          [destruct m; try discriminate Hm; reflexivity | | reflexivity].
        apply ys_product; [reflexivity|]. unfold JS.push.
        rewrite !eval_stack_app, E. reflexivity.
    + destruct o.
      * apply (G [m; a] [] (Some (apply_op a s (apply_op m t0 n0), Plus)) n);
          [destruct m; try discriminate Hm; destruct a; try discriminate Ha; reflexivity
          | | reflexivity].
        apply ys_sum; [reflexivity|]. unfold JS.push.
        rewrite !eval_stack_app, E. reflexivity.
      * apply (G [m; a] [] (Some (apply_op a s (apply_op m t0 n0), Minus)) n);
          [destruct m; try discriminate Hm; destruct a; try discriminate Ha; reflexivity
          | | reflexivity].
        apply ys_sum; [reflexivity|]. unfold JS.push.
        rewrite !eval_stack_app, E. reflexivity.
      * apply (G [m] [a] (Some (s, a)) (apply_op Times (apply_op m t0 n0) n));
          [destruct m; try discriminate Hm; destruct a; try discriminate Ha; reflexivity
          | | reflexivity].
        apply ys_sum_product; [reflexivity | exact Ha |]. unfold JS.push.
        rewrite !eval_stack_app, E. reflexivity.
      * apply (G [m] [a] (Some (s, a)) (apply_op Divide (apply_op m t0 n0) n));
          [destruct m; try discriminate Hm; destruct a; try discriminate Ha; reflexivity
          | | reflexivity].
        apply ys_sum_product; [reflexivity | exact Ha |]. unfold JS.push.
        rewrite !eval_stack_app, E. reflexivity.
Qed.

(** X1: for every infix expression (numbers separated by operators),
    [toRPN] gives a postfix sequence that leaves exactly one value, and
    [evalRPN] of it is the value of the expression read from left to right
    with × and ÷ binding tighter than + and -. *)
Theorem evalRPN_toRPN_infix (n0 : float) (rest : list (Operator * float)) :
  eval_stack (toRPN (infix_tokens n0 rest)) [] = Some [infix_value n0 rest] /\
  evalRPN (toRPN (infix_tokens n0 rest)) = infix_value n0 rest.
Proof.
  assert (E : eval_stack (toRPN (infix_tokens n0 rest)) [] = Some [infix_value n0 rest]).
  { unfold toRPN, infix_tokens, infix_value. cbn [fold_left toRPN_body].
    apply (toRPN_loop_infix rest (JS.push [] (NumToken n0)) [] None n0).
    now apply ys_term. }
  split; [exact E|]. rewrite evalRPN_eval_stack, E. reflexivity.
Qed.

(** ** What the converter keeps *)

Lemma yard_permutation (input output : list Token) (stack : OpStack)
  (result : list Token) :
  yard input output stack result ->
  Permutation result (output ++ map OpToken stack ++ input).
Proof.
  induction 1 as [output stack | v input output stack r _ IH
                 | o input output popped left r _ _ _ IH].
  - now rewrite app_nil_r.
  - rewrite IH, <- app_assoc. apply Permutation_app_head. simpl.
    apply Permutation_middle.
  - rewrite IH, map_app, <- !app_assoc. do 2 apply Permutation_app_head.
    simpl. apply Permutation_middle.
Qed.

(** X2: [toRPN] only reorders: its output is a permutation of its input,
    for every token sequence, well-formed or not; no token is dropped,
    repeated or made up, and the lengths agree. *)
Theorem toRPN_permutation (input : list Token) :
  Permutation (toRPN input) input /\
  List.length (toRPN input) = List.length input.
Proof.
  assert (P : Permutation (toRPN input) input).
  { apply (yard_permutation input [] [] (toRPN input)).
    apply (toRPN_loop_yard input [] []). }
  split; [exact P | now apply Permutation_length].
Qed.

(** ** Malformed postfix sequences *)

(** X3: when an operator of a postfix sequence finds fewer than two values
    on the stack, [evalRPN] is NaN whatever tokens follow it. *)
Theorem evalRPN_underflow (prefix rest : list Token) (o : Operator)
  (stack : list float)
  (Hprefix : evalRPN_loop prefix [] = Some stack)
  (Hstack : (List.length stack < 2)%nat) :
  evalRPN (prefix ++ OpToken o :: rest) = nan.
Proof.
  unfold evalRPN. rewrite evalRPN_loop_app, Hprefix.
  destruct stack as [|x [|y stack]]; [reflexivity | reflexivity |].
  simpl in Hstack. lia.
Qed.

Lemma evalRPN_underflow_witness :
  evalRPN ([NumToken 7] ++ OpToken Plus :: [NumToken 1; NumToken 2; OpToken Times])
  = nan.
Proof.
  apply (evalRPN_underflow [NumToken 7] [NumToken 1; NumToken 2; OpToken Times]
           Plus [7%float]).
  - reflexivity.
  - simpl. lia.
Defined.

(** ** What [evaluate] computes *)

(** X4: in a reachable session [evaluate] performs at most one binary
    operation.  It always empties the pending sequence and sets the flag.
    With the pending sequence [a o] it shows [a o v] formatted, where [v]
    is the number the display parses to, or [a] formatted when the
    display does not parse; with a lone pending operator it shows Error, or
    leaves the display when that does not parse; with nothing pending it
    shows the parsed display formatted, or leaves the display.  No other
    pending sequence is reachable. *)
Theorem evaluate_reachable (toLocaleString : float -> nat -> string)
  (s : Session) (Hs : reachable toLocaleString s) :
  tokens (evaluate toLocaleString s) = [] /\
  justEvaluated (evaluate toLocaleString s) = true /\
  ((tokens s = [] /\
    display (evaluate toLocaleString s) =
    if JS.isNaN (JS.parseFloat (display s)) then display s
    else formatNumber toLocaleString (JS.parseFloat (display s))) \/
   (exists o, tokens s = [OpToken o] /\
    display (evaluate toLocaleString s) =
    if JS.isNaN (JS.parseFloat (display s)) then display s else "Error") \/
   (exists a o, tokens s = [NumToken a; OpToken o] /\
    display (evaluate toLocaleString s) =
    formatNumber toLocaleString
      (if JS.isNaN (JS.parseFloat (display s)) then a
       else apply_op o a (JS.parseFloat (display s))))).
Proof.
  destruct (reachable_invariant toLocaleString s Hs) as [P _].
  split; [|split].
  - unfold evaluate.
    now destruct (match JS.last_elem _ with Some (OpToken _) => _ | _ => _ end).
  - unfold evaluate.
    now destruct (match JS.last_elem _ with Some (OpToken _) => _ | _ => _ end).
  - destruct P as [E | [[o E] | (a & o & E)]].
    + left. split; [exact E|]. unfold evaluate. rewrite E.
      destruct (JS.isNaN (JS.parseFloat (display s))); reflexivity.
    + right. left. exists o. split; [exact E|]. unfold evaluate. rewrite E.
      destruct (JS.isNaN (JS.parseFloat (display s))); [reflexivity|].
      destruct o; reflexivity.
    + right. right. exists a, o. split; [exact E|]. unfold evaluate. rewrite E.
      destruct (JS.isNaN (JS.parseFloat (display s))); destruct o; reflexivity.
Qed.

Lemma evaluate_reachable_witness :
  tokens (evaluate EnUS.toLocaleString
            (run EnUS.toLocaleString [ADigit D8; AOperator Minus; ADigit D3] initial))
  = [].
Proof.
  apply (evaluate_reachable EnUS.toLocaleString).
  apply reachable_run. constructor.
Defined.

(** X5: once an operator is pending in a reachable session, a further
    operator entry only takes its place: the display and the flag stay as
    they are, the pending number is kept, and the number typed since the
    first operator is not added to the pending sequence. *)
Theorem second_operator_only_replaces (toLocaleString : float -> nat -> string)
  (s : Session) (o : Operator)
  (Hs : reachable toLocaleString s) (Hpending : tokens s <> []) :
  display (inputOperator o s) = display s /\
  justEvaluated (inputOperator o s) = justEvaluated s /\
  JS.last_elem (tokens (inputOperator o s)) = Some (OpToken o) /\
  filter is_num (tokens (inputOperator o s)) = filter is_num (tokens s) /\
  List.length (tokens (inputOperator o s)) = List.length (tokens s).
Proof.
  destruct (reachable_invariant toLocaleString s Hs) as [P _].
  destruct P as [E | [[o' E] | (a & o' & E)]]; [contradiction | |].
  - rewrite (inputOperator_replace o o' [] s E), E. now repeat split.
  - rewrite (inputOperator_replace o o' [NumToken a] s E), E. now repeat split.
Qed.

Lemma second_operator_only_replaces_witness :
  display (inputOperator Times
             (run EnUS.toLocaleString [ADigit D2; AOperator Plus; ADigit D3] initial))
  = "3".
Proof.
  apply (second_operator_only_replaces EnUS.toLocaleString
           (run EnUS.toLocaleString [ADigit D2; AOperator Plus; ADigit D3] initial)
           Times).
  - apply reachable_run. constructor.
  - discriminate.
Defined.

(** X6: an operator entered right after [evaluate] starts the next
    expression from the text of the display, parsed again, and not from the
    number that was computed: the pending sequence is that parsed number
    and the operator, or the operator alone when the text does not parse. *)
Theorem operator_after_evaluate (toLocaleString : float -> nat -> string)
  (s : Session) (o : Operator) :
  inputOperator o (evaluate toLocaleString s) =
  mkSession "0"
    (if JS.isNaN (JS.parseFloat (display (evaluate toLocaleString s)))
     then [OpToken o]
     else [NumToken (JS.parseFloat (display (evaluate toLocaleString s)));
           OpToken o])
    false.
Proof.
  assert (E : tokens (evaluate toLocaleString s) = []).
  { unfold evaluate.
    now destruct (match JS.last_elem _ with Some (OpToken _) => _ | _ => _ end). }
  unfold inputOperator. rewrite E. simpl.
  now destruct (JS.isNaN _).
Qed.

(** An instance on an en-US host: 999 + 1 = shows 1,000, and + 1 = then
    shows 2, the text 1,000 parsing to 1. *)
Example chaining_through_text :
  run EnUS.toLocaleString
    [ADigit D9; ADigit D9; ADigit D9; AOperator Plus; ADigit D1; AEvaluate] initial
  = mkSession "1,000" [] true /\
  run EnUS.toLocaleString
    [ADigit D9; ADigit D9; ADigit D9; AOperator Plus; ADigit D1; AEvaluate;
     AOperator Plus; ADigit D1; AEvaluate] initial
  = mkSession "2" [] true.
Proof. split; reflexivity. Qed.

(** ** Strings *)

Lemma string_length_app (s t : string) :
  String.length (s ++ t) = (String.length s + String.length t)%nat.
Proof. induction s as [|c s IH]; [reflexivity|]. simpl. now rewrite IH. Qed.

Lemma substring_prefix (p q : string) :
  substring 0 (String.length p) (p ++ q) = p.
Proof.
  induction p as [|c p IH]; simpl.
  - now destruct q.
  - now rewrite IH.
Qed.

Lemma substring_length (n : nat) (s : string) :
  (n <= String.length s)%nat -> String.length (substring 0 n s) = n.
Proof.
  revert n. induction s as [|c s IH]; intros [|n] H; simpl in *; try reflexivity.
  - lia.
  - rewrite IH; [reflexivity | lia].
Qed.

Lemma slice_drop_last_snoc (p : string) (c : ascii) :
  JS.slice_drop_last (p ++ String c "") = p.
Proof.
  unfold JS.slice_drop_last. rewrite string_length_app. simpl String.length.
  replace (String.length p + 1 - 1)%nat with (String.length p) by lia.
  apply substring_prefix.
Qed.

Lemma slice_from_1_cons (c : ascii) (r : string) :
  JS.slice_from_1 (String c r) = r.
Proof.
  unfold JS.slice_from_1. simpl String.length. rewrite Nat.sub_succ, Nat.sub_0_r.
  change (substring 1 (String.length r) (String c r))
    with (substring 0 (String.length r) r).
  apply substring_all.
Qed.

(** A character is the minus sign, or a buffer that starts with it has no
    sign to strip. *)
Lemma minus_or_not (c : ascii) :
  c = "-"%char \/
  (forall r, unsigned_part (String c r) = String c r /\
             JS.startsWith "-" (String c r) = false /\
             (String c r =? "-0")%string = false /\
             (String c r =? "-")%string = false).
Proof.
  destruct c as [[|] [|] [|] [|] [|] [|] [|] [|]];
    try (right; intros r; repeat split; reflexivity).
  now left.
Qed.

Lemma startsWith_minus (r : string) : JS.startsWith "-" (String "-" r) = true.
Proof. unfold JS.startsWith. simpl. now destruct r. Qed.

(** The two shapes of a buffer with a digit after its optional sign. *)
Lemma leading_digit_cases (s : string) :
  has_leading_digit s = true ->
  (exists d r, s = String "-" (String d r) /\ JS.is_digit d = true) \/
  (exists d r, s = String d r /\ JS.is_digit d = true /\
               unsigned_part s = s /\ JS.startsWith "-" s = false /\
               (s =? "-0")%string = false /\ (s =? "-")%string = false).
Proof.
  unfold has_leading_digit. destruct s as [|c s]; [discriminate|].
  destruct (minus_or_not c) as [-> | H].
  - simpl. destruct s as [|d r]; [discriminate|]. intros Hd.
    left. now exists d, r.
  - destruct (H s) as (E1 & E2 & E3 & E4). rewrite E1. simpl. intros Hd.
    right. now exists c, s.
Qed.

Lemma digit_key_single (d : Digit) :
  exists c, digit_key d = String c "" /\ JS.is_digit c = true /\
            has_leading_digit (digit_key d) = true.
Proof. destruct d; eexists; repeat split. Qed.

(** ** Backspace *)

(** X7: what [backspace] leaves in the display, in any session.  After a
    result, and on a display of at most one character, it is 0.  Otherwise
    exactly the last character is removed, unless that leaves a lone minus
    sign, which is replaced by 0.  So the display is never left empty or
    holding a lone minus sign.  The pending tokens are kept and the flag is
    reset. *)
Theorem backspace_never_empties (s : Session) :
  (1 <= String.length (display (backspace s)))%nat /\
  display (backspace s) <> "-" /\
  tokens (backspace s) = tokens s /\
  justEvaluated (backspace s) = false /\
  (justEvaluated s = true -> display (backspace s) = "0") /\
  (justEvaluated s = false -> (String.length (display s) <= 1)%nat ->
   display (backspace s) = "0") /\
  (forall t c, justEvaluated s = false -> display s = (t ++ String c "")%string ->
   display (backspace s) = if ((t =? "") || (t =? "-"))%string then "0" else t).
Proof.
  assert (L : justEvaluated s = false ->
              (1 < String.length (display s))%nat ->
              (1 <= String.length (JS.slice_drop_last (display s)))%nat).
  { intros _ H. unfold JS.slice_drop_last. rewrite substring_length; lia. }
  unfold backspace. destruct (justEvaluated s) eqn:Hf;
    cbn [display tokens justEvaluated].
  - repeat split; cbn [String.length]; try lia; try discriminate.
  - split; [|split; [|split; [|split; [|split; [|split]]]]];
      try reflexivity; try discriminate.
    + destruct (1 <? String.length (display s))%nat eqn:Hlen.
      * apply Nat.ltb_lt in Hlen. specialize (L eq_refl Hlen).
        now destruct (JS.slice_drop_last (display s) =? "-")%string.
      * cbn. lia.
    + destruct (1 <? String.length (display s))%nat; [|discriminate].
      destruct (JS.slice_drop_last (display s) =? "-")%string eqn:Hm;
        [discriminate | now apply String.eqb_neq].
    + intros _ Hlen. apply Nat.ltb_ge in Hlen. now rewrite Hlen.
    + intros t c _ E. rewrite E, string_length_app, slice_drop_last_snoc.
      cbn [String.length]. destruct t as [|c' t']; [reflexivity|].
      cbn [String.length]. replace (1 <? S (String.length t') + 1)%nat with true
        by (symmetry; apply Nat.ltb_lt; lia).
      change (String c' t' =? "")%string with false. cbn [orb].
      now destruct (String c' t' =? "-")%string.
Qed.

Lemma backspace_never_empties_witness :
  display (backspace (mkSession "-12.5" [] false)) = "-12.".
Proof.
  exact (proj2 (proj2 (proj2 (proj2 (proj2 (proj2
           (backspace_never_empties (mkSession "-12.5" [] false)))))))
           "-12." "5"%char eq_refl eq_refl).
Defined.

(** X8: [backspace] undoes a digit or a decimal point just typed.  In a
    session whose flag is not set and whose display holds a digit after its
    optional sign, a digit entry followed by [backspace] gives the session
    back, unless the display is -0 (which the digit replaces); so does a
    decimal entry when the display has no decimal point. *)
Theorem backspace_undoes_entry (s : Session) (d : Digit)
  (Hflag : justEvaluated s = false)
  (Hdigit : has_leading_digit (display s) = true) :
  (display s <> "-0" -> backspace (inputDigit (digit_key d) s) = s) /\
  (JS.includes "." (display s) = false -> backspace (inputDecimal s) = s).
Proof.
  destruct s as [t ts f]. simpl in *. subst f.
  assert (N : t <> "-" /\ (1 <= String.length t)%nat).
  { destruct (leading_digit_cases t Hdigit)
      as [(c & r & -> & _) | (c & r & -> & _ & _ & _ & _ & E)].
    - split; [discriminate | simpl; lia].
    - split; [now apply String.eqb_neq | simpl; lia]. }
  destruct N as [N1 N2].
  assert (U : forall c, backspace (mkSession (t ++ String c "") ts false)
                        = mkSession t ts false).
  { intros c. unfold backspace. simpl.
    rewrite string_length_app. simpl String.length.
    replace (1 <? String.length t + 1)%nat with true
      by (symmetry; apply Nat.ltb_lt; lia).
    rewrite slice_drop_last_snoc.
    apply String.eqb_neq in N1. now rewrite N1. }
  split.
  - intros H0. unfold inputDigit. simpl.
    destruct (digit_key_single d) as (c & -> & _).
    destruct (t =? "0")%string eqn:E0.
    + apply String.eqb_eq in E0. subst t. reflexivity.
    + destruct (t =? "-0")%string eqn:E1.
      * apply String.eqb_eq in E1. contradiction.
      * apply U.
  - intros Hi. unfold inputDecimal. simpl. rewrite Hi. simpl. apply U.
Qed.

Lemma backspace_undoes_entry_witness :
  backspace (inputDigit (digit_key D7) (mkSession "-12.5" [] false))
  = mkSession "-12.5" [] false.
Proof.
  apply (backspace_undoes_entry (mkSession "-12.5" [] false) D7);
    [reflexivity | reflexivity | discriminate].
Defined.

(** ** Sign toggle *)

(** X9: [toggleSign] twice gives the session back when the display holds a
    digit after its optional sign and is not -0; from -0 the first toggle
    gives 0, which the second leaves as it is. *)
Theorem toggleSign_twice (s : Session)
  (Hdigit : has_leading_digit (display s) = true)
  (Hzero : display s <> "-0") :
  toggleSign (toggleSign s) = s /\
  toggleSign (toggleSign (mkSession "-0" (tokens s) (justEvaluated s)))
  = mkSession "0" (tokens s) (justEvaluated s).
Proof.
  split; [|reflexivity].
  destruct s as [t ts f]. simpl in *. unfold toggleSign. simpl.
  destruct (leading_digit_cases t Hdigit)
    as [(c & r & -> & Hc) | (c & r & -> & Hc & _ & E2 & _ & _)].
  - rewrite startsWith_minus, slice_from_1_cons.
    assert (Hl : has_leading_digit (String c r) = true).
    { unfold has_leading_digit. destruct (minus_or_not c) as [-> | H];
        [discriminate Hc|]. destruct (H r) as (E & _). now rewrite E. }
    destruct (leading_digit_cases _ Hl)
      as [(c' & r' & E & _) | (c' & r' & _ & _ & _ & E2 & _ & _)].
    + injection E as -> _. discriminate Hc.
    + rewrite E2. destruct (String c r =? "0")%string eqn:E0.
      * apply String.eqb_eq in E0. rewrite E0 in Hzero. now elim Hzero.
      * reflexivity.
  - rewrite E2. destruct (String c r =? "0")%string eqn:E0.
    + now rewrite E2, E0.
    + change ("-" ++ String c r)%string with (String "-" (String c r)).
      now rewrite startsWith_minus, slice_from_1_cons.
Qed.

Lemma toggleSign_twice_witness :
  toggleSign (toggleSign (mkSession "3.5" [] false)) = mkSession "3.5" [] false.
Proof.
  apply (toggleSign_twice (mkSession "3.5" [] false)); [reflexivity | discriminate].
Defined.

(** ** The buffer while typing *)

Lemma leading_digit_append (t k : string) :
  has_leading_digit t = true -> has_leading_digit (t ++ k) = true.
Proof.
  intros H.
  destruct (leading_digit_cases t H)
    as [(c & r & -> & Hc) | (c & r & -> & Hc & _)].
  - exact Hc.
  - unfold has_leading_digit.
    destruct (minus_or_not c) as [-> | G]; [discriminate Hc|].
    change (String c r ++ k)%string with (String c (r ++ k)).
    destruct (G (r ++ k)%string) as (E & _). now rewrite E.
Qed.

Lemma inputDigit_leading_digit (d : Digit) (s : Session) :
  has_leading_digit (display s) = true ->
  has_leading_digit (display (inputDigit (digit_key d) s)) = true.
Proof.
  intros H. unfold inputDigit.
  destruct (justEvaluated s); [now destruct d|].
  destruct (display s =? "0")%string; [now destruct d|].
  destruct (display s =? "-0")%string; [now destruct d|].
  now apply leading_digit_append.
Qed.

Lemma inputDecimal_leading_digit (s : Session) :
  has_leading_digit (display s) = true ->
  has_leading_digit (display (inputDecimal s)) = true.
Proof.
  intros H. unfold inputDecimal.
  destruct (justEvaluated s); [reflexivity|].
  destruct (negb _); [|exact H]. now apply leading_digit_append.
Qed.

Lemma backspace_leading_digit (s : Session) :
  has_leading_digit (display s) = true ->
  has_leading_digit (display (backspace s)) = true.
Proof.
  intros H. unfold backspace.
  destruct (justEvaluated s); [reflexivity|]. cbn [display].
  destruct (1 <? String.length (display s))%nat eqn:Hlen; [|reflexivity].
  destruct (JS.slice_drop_last (display s) =? "-")%string eqn:Hm; [reflexivity|].
  apply Nat.ltb_lt in Hlen. unfold JS.slice_drop_last in *.
  destruct (leading_digit_cases _ H)
    as [(c & r & E & Hc) | (c & r & E & Hc & _)]; rewrite E in *; clear E.
  - simpl String.length in *. rewrite Nat.sub_succ, Nat.sub_0_r in *.
    destruct r as [|c' r'].
    + discriminate Hm.
    + exact Hc.
  - simpl String.length in *. rewrite Nat.sub_succ, Nat.sub_0_r in *.
    destruct r as [|c' r']; [simpl in Hlen; lia|].
    unfold has_leading_digit.
    destruct (minus_or_not c) as [-> | G]; [discriminate Hc|].
    change (substring 0 (String.length (String c' r')) (String c (String c' r')))
      with (String c (substring 0 (String.length r') (String c' r'))).
    destruct (G (substring 0 (String.length r') (String c' r'))) as (E & _).
    now rewrite E.
Qed.

Lemma toggleSign_leading_digit (s : Session) :
  has_leading_digit (display s) = true ->
  has_leading_digit (display (toggleSign s)) = true.
Proof.
  intros H. unfold toggleSign. cbn [display].
  destruct (leading_digit_cases _ H)
    as [(c & r & -> & Hc) | (c & r & -> & Hc & E1 & E2 & _)].
  - rewrite startsWith_minus, slice_from_1_cons.
    unfold has_leading_digit.
    destruct (minus_or_not c) as [-> | G]; [discriminate Hc|].
    destruct (G r) as (E & _). now rewrite E.
  - rewrite E2. destruct (String c r =? "0")%string; [|exact Hc].
    unfold has_leading_digit. now rewrite E1.
Qed.

(** X10: in every session reached from the initial one by the editing
    operations other than [evaluate] and [percent], the display holds a
    digit right after its optional minus sign: it is never empty, never a
    lone minus sign, and never starts with the decimal point. *)
Theorem typed_buffer_leading_digit (toLocaleString : float -> nat -> string)
  (trace : list Action) (Htrace : forallb is_typing trace = true) :
  has_leading_digit (display (run toLocaleString trace initial)) = true.
Proof.
  assert (G : forall s, has_leading_digit (display s) = true ->
                        has_leading_digit (display (run toLocaleString trace s)) = true).
  { induction trace as [|a trace IH]; intros s Hs; [exact Hs|].
    simpl in Htrace. apply andb_true_iff in Htrace as [Ha Htrace].
    simpl. apply (IH Htrace).
    destruct a as [d| |o| | | | |]; simpl; try discriminate Ha.
    - now apply inputDigit_leading_digit.
    - now apply inputDecimal_leading_digit.
    - unfold inputOperator.
      destruct (JS.last_elem (tokens s)) as [[v|o']|]; try reflexivity. exact Hs.
    - now apply backspace_leading_digit.
    - reflexivity.
    - now apply toggleSign_leading_digit. }
  now apply G.
Qed.

Lemma typed_buffer_leading_digit_witness :
  has_leading_digit
    (display (run EnUS.toLocaleString
                [ADecimal; AToggleSign; ADigit D5; ABackspace; ABackspace] initial))
  = true.
Proof.
  apply (typed_buffer_leading_digit EnUS.toLocaleString). reflexivity.
Defined.

(** ** Digit entry *)

Lemma digits_text_cons (d : Digit) (ds : list Digit) :
  digits_text (d :: ds) = (digit_key d ++ digits_text ds)%string.
Proof.
  unfold digits_text. simpl. destruct (map digit_key ds) as [|x xs] eqn:E.
  - simpl. clear E. induction (digit_key d) as [|c r IH]; [reflexivity|].
    simpl. now rewrite <- IH.
  - reflexivity.
Qed.

Lemma string_app_assoc (a b c : string) :
  ((a ++ b) ++ c = a ++ (b ++ c))%string.
Proof. induction a as [|x a IH]; [reflexivity|]. simpl. now rewrite IH. Qed.

Lemma string_app_nil_r (a : string) : (a ++ "")%string = a.
Proof. induction a as [|x a IH]; [reflexivity|]. simpl. now rewrite IH. Qed.

(** Digits typed after a buffer that starts with a digit and is not 0 are
    appended to it. *)
Lemma digits_appended (toLocaleString : float -> nat -> string)
  (ds : list Digit) (t : string) (ts : list Token) :
  starts_with_digit t = true -> t <> "0" ->
  run toLocaleString (map ADigit ds) (mkSession t ts false)
  = mkSession (t ++ digits_text ds) ts false.
Proof.
  revert t. induction ds as [|d ds IH]; intros t Hd H0.
  - simpl. now rewrite string_app_nil_r.
  - simpl map. cbn [run fold_left step].
    assert (E : inputDigit (digit_key d) (mkSession t ts false)
                = mkSession (t ++ digit_key d) ts false).
    { unfold inputDigit. simpl.
      apply String.eqb_neq in H0. rewrite H0.
      destruct t as [|c r]; [discriminate Hd|].
      destruct (minus_or_not c) as [-> | G]; [discriminate Hd|].
      destruct (G r) as (_ & _ & E & _). now rewrite E. }
    rewrite E. change (fold_left (step toLocaleString) (map ADigit ds))
      with (run toLocaleString (map ADigit ds)).
    rewrite IH.
    + now rewrite digits_text_cons, string_app_assoc.
    + destruct t as [|c r]; [discriminate Hd | exact Hd].
    + destruct t as [|c r]; [discriminate Hd|].
      destruct (digit_key_single d) as (k & -> & _).
      destruct r; discriminate.
Qed.

(** X11: digits typed from the initial session show as they are typed when
    the first one is not 0, and any number of 0 keys leaves the initial
    session as it is: a leading zero is replaced, never kept. *)
Theorem typed_digits_shown (toLocaleString : float -> nat -> string)
  (d : Digit) (ds : list Digit) (n : nat) (Hd : d <> D0) :
  run toLocaleString (map ADigit (d :: ds)) initial
  = mkSession (digits_text (d :: ds)) [] false /\
  run toLocaleString (repeat (ADigit D0) n) initial = initial.
Proof.
  split.
  - simpl map. cbn [run fold_left step].
    change (inputDigit (digit_key d) initial) with (mkSession (digit_key d) [] false).
    change (fold_left (step toLocaleString) (map ADigit ds))
      with (run toLocaleString (map ADigit ds)).
    rewrite (digits_appended toLocaleString ds (digit_key d) []).
    + now rewrite digits_text_cons.
    + now destruct d.
    + destruct d; try discriminate. now elim Hd.
  - induction n as [|n IH]; [reflexivity | exact IH].
Qed.

Lemma typed_digits_shown_witness :
  run EnUS.toLocaleString (map ADigit [D4; D0; D2]) initial
  = mkSession (digits_text [D4; D0; D2]) [] false.
Proof.
  apply (typed_digits_shown EnUS.toLocaleString D4 [D0; D2] 3). discriminate.
Defined.

(** ** The keyboard *)

Lemma digit_key_of_char (c : ascii) :
  JS.is_digit c = true -> exists d, String c "" = digit_key d.
Proof.
  destruct c as [[|] [|] [|] [|] [|] [|] [|] [|]]; intros H; try discriminate H;
    first [ now exists D0 | now exists D1 | now exists D2 | now exists D3
          | now exists D4 | now exists D5 | now exists D6 | now exists D7
          | now exists D8 | now exists D9 ].
Qed.

(** X12: every key either leaves the session as it is or performs one of
    the actions of the keypad other than toggle sign and percent, and each
    of those actions has a key: toggle sign and percent are the only
    operations the keyboard cannot trigger. *)
Theorem keyboard_actions (toLocaleString : float -> nat -> string) :
  (forall key,
     (exists a, is_pointer_only a = false /\
                forall s, handleKeyDown toLocaleString key s = step toLocaleString s a) \/
     (forall s, handleKeyDown toLocaleString key s = s)) /\
  (forall a, is_pointer_only a = false ->
     exists key, forall s, handleKeyDown toLocaleString key s = step toLocaleString s a).
Proof.
  split.
  - intros key. unfold handleKeyDown.
    destruct (is_digit_key key) eqn:Hk.
    { left. destruct key as [|c [|c' r]]; try discriminate Hk.
      destruct (digit_key_of_char c Hk) as [d ->].
      exists (ADigit d). now split. }
    destruct (key =? ".")%string; [left; exists ADecimal; now split|].
    destruct (key =? "+")%string; [left; exists (AOperator Plus); now split|].
    destruct (key =? "-")%string; [left; exists (AOperator Minus); now split|].
    destruct ((key =? "*") || (key =? "x") || (key =? "X"))%string;
      [left; exists (AOperator Times); now split|].
    destruct (key =? "/")%string; [left; exists (AOperator Divide); now split|].
    destruct ((key =? "Enter") || (key =? "="))%string;
      [left; exists AEvaluate; now split|].
    destruct (key =? "Backspace")%string; [left; exists ABackspace; now split|].
    destruct ((key =? "Escape") || (toLowerCase key =? "c"))%string;
      [left; exists AClear; now split|].
    now right.
  - intros a Ha. destruct a as [d| |o| | | | |]; try discriminate Ha.
    + exists (digit_key d). intros s. now destruct d.
    + now exists ".".
    + destruct o; [now exists "+" | now exists "-" | now exists "*" | now exists "/"].
    + now exists "Enter".
    + now exists "Backspace".
    + now exists "Escape".
Qed.

Lemma keyboard_actions_witness :
  exists key, forall s,
    handleKeyDown EnUS.toLocaleString key s = step EnUS.toLocaleString s AClear.
Proof.
  apply (keyboard_actions EnUS.toLocaleString). reflexivity.
Defined.

(** ** Parsing the display *)

Lemma shr_1_nonneg (mrs : shr_record) :
  (0 <= shr_m mrs)%Z -> (0 <= shr_m (shr_1 mrs))%Z.
Proof.
  destruct mrs as [m r s]. simpl.
  destruct m as [|[p|p|]|[p|p|]]; simpl; lia.
Qed.

Lemma iter_shr_1_nonneg (p : positive) (mrs : shr_record) :
  (0 <= shr_m mrs)%Z -> (0 <= shr_m (iter_pos shr_1 p mrs))%Z.
Proof.
  revert mrs. induction p as [p IH|p IH|]; intros mrs H; simpl.
  - apply IH, IH. now apply shr_1_nonneg.
  - now apply IH, IH.
  - now apply shr_1_nonneg.
Qed.

Lemma shr_fexp_nonneg (m e : Z) (l : location) :
  (0 <= m)%Z -> (0 <= shr_m (fst (shr_fexp FloatOps.prec FloatOps.emax m e l)))%Z.
Proof.
  intros H. unfold shr_fexp, shr.
  assert (H0 : (0 <= shr_m (shr_record_of_loc m l))%Z)
    by (destruct l as [|[| |]]; exact H).
  destruct (fexp FloatOps.prec FloatOps.emax (Zdigits2 m + e) - e)%Z; simpl; try exact H0.
  now apply iter_shr_1_nonneg.
Qed.

Lemma binary_round_aux_not_nan (sx : bool) (mx ex : Z) (lx : location) :
  (0 <= mx)%Z -> binary_round_aux FloatOps.prec FloatOps.emax sx mx ex lx <> S754_nan.
Proof.
  intros H. unfold binary_round_aux.
  pose proof (shr_fexp_nonneg mx ex lx H) as H1.
  destruct (shr_fexp FloatOps.prec FloatOps.emax mx ex lx) as [mrs' e']. simpl in H1.
  assert (H2 : (0 <= round_nearest_even (shr_m mrs') (loc_of_shr_record mrs'))%Z).
  { unfold round_nearest_even.
    destruct (loc_of_shr_record mrs') as [|[| |]]; try lia.
    destruct (Z.even (shr_m mrs')); lia. }
  pose proof (shr_fexp_nonneg _ e' loc_Exact H2) as H3.
  destruct (shr_fexp FloatOps.prec FloatOps.emax _ e' loc_Exact) as [mrs'' e'']. simpl in H3.
  destruct (shr_m mrs'') as [|m|m]; [discriminate | | lia].
  destruct (e'' <=? FloatOps.emax - FloatOps.prec)%Z; discriminate.
Qed.

Lemma binary_normalize_not_nan (m e : Z) :
  binary_normalize FloatOps.prec FloatOps.emax m e false <> S754_nan.
Proof.
  unfold binary_normalize, binary_round.
  destruct m as [|p|p]; [discriminate | |];
    destruct (shl_align _ _ _) as [mz ez]; now apply binary_round_aux_not_nan.
Qed.

Lemma SFdiv_finite_not_nan (s1 s2 : bool) (m1 m2 : positive) (e1 e2 : Z) :
  SFdiv FloatOps.prec FloatOps.emax (S754_finite s1 m1 e1) (S754_finite s2 m2 e2) <> S754_nan.
Proof.
  unfold SFdiv, SFdiv_core_binary.
  set (s := (e1 - e2 - _)%Z).
  set (m' := match s with Z.pos _ => Z.shiftl (Z.pos m1) s | 0%Z => Z.pos m1
                     | Z.neg _ => 0%Z end).
  assert (Hm : (0 <= m')%Z).
  { unfold m'. destruct s; try lia. apply Z.shiftl_nonneg. lia. }
  pose proof (Z.div_pos m' (Z.pos m2) Hm ltac:(lia)) as Hq.
  unfold Z.div in Hq. destruct (Z.div_eucl m' (Z.pos m2)) as [q r].
  now apply binary_round_aux_not_nan.
Qed.

Lemma round_decimal_not_nan (neg : bool) (m e : Z) :
  JS.round_decimal neg m e <> S754_nan.
Proof.
  unfold JS.round_decimal. destruct m as [|p|p]; try discriminate.
  destruct (400 <? e)%Z; [discriminate|].
  destruct (e + Z.log2 (Z.pos p) + 1 <? -400)%Z; [discriminate|].
  destruct (0 <=? e)%Z eqn:He.
  - apply binary_normalize_not_nan.
  - apply Z.leb_gt in He.
    assert (Hp : (0 < 10 ^ (- e))%Z) by (apply Z.pow_pos_nonneg; lia).
    destruct (10 ^ (- e))%Z as [|q|q]; try lia.
    apply SFdiv_finite_not_nan.
Qed.

Lemma is_nan_Prim2SF (f : float) :
  Prim2SF f <> S754_nan -> PrimFloat.is_nan f = false.
Proof.
  unfold Prim2SF. destruct (PrimFloat.is_nan f); [|reflexivity].
  intros H. now elim H.
Qed.

(** A value other than NaN is no NaN as a number of the machine. *)
Lemma SF2Prim_not_nan (x : spec_float) :
  x <> S754_nan -> PrimFloat.is_nan (SF2Prim x) = false.
Proof.
  intros Hx. destruct x as [[|]|[|]| |s m e]; try reflexivity; [now elim Hx|].
  apply is_nan_Prim2SF.
  assert (F : forall pm, Prim2SF (Z.ldexp (of_uint63 pm) e) <> S754_nan).
  { intros pm. rewrite Z_ldexp_spec, of_uint63_spec. unfold SFldexp.
    match goal with
    | |- context [binary_normalize FloatOps.prec FloatOps.emax ?z 0%Z false] =>
        pose proof (binary_normalize_not_nan z 0) as N
    end.
    destruct (binary_normalize FloatOps.prec FloatOps.emax _ 0 false) as [| | |sx mx ex];
      try discriminate; [now elim N|].
    unfold binary_round. destruct (shl_align _ _ _) as [mz ez].
    now apply binary_round_aux_not_nan. }
  unfold SF2Prim. destruct s; [|apply F].
  rewrite opp_spec.
  match goal with
  | |- SFopp (Prim2SF (Z.ldexp (of_uint63 ?pm) e)) <> _ =>
      specialize (F pm); destruct (Prim2SF (Z.ldexp (of_uint63 pm) e))
  end; try discriminate. now elim F.
Qed.

Lemma span_digits_cons (c : ascii) (r : string) :
  JS.is_digit c = true ->
  exists ds rest, JS.span_digits (String c r) = (c :: ds, rest).
Proof.
  intros H. simpl. rewrite H. destruct (JS.span_digits r) as [ds rest].
  now exists ds, rest.
Qed.

(** The text after the sign starts with a digit: [parseFloat] reads a
    number. *)
Lemma parse_unsigned_not_nan (neg : bool) (c : ascii) (r : string) :
  JS.is_digit c = true ->
  PrimFloat.is_nan
    (if String.prefix "Infinity" (String c r)
     then (if neg then neg_infinity else infinity)
     else
       let (ip, r1) := JS.span_digits (String c r) in
       let (fp, r2) :=
         match r1 with
         | String "." r' => JS.span_digits r'
         | _ => ([], r1)
         end in
       match ip ++ fp with
       | [] => nan
       | ds =>
           SF2Prim (JS.round_decimal neg (JS.decimal_value ds)
                      (JS.exponent_part r2 - Z.of_nat (List.length fp)))
       end) = false.
Proof.
  intros Hc.
  destruct (String.prefix "Infinity" (String c r)); [now destruct neg|].
  destruct (span_digits_cons c r Hc) as (ds & rest & ->).
  destruct (match rest with
            | String "." r' => JS.span_digits r'
            | _ => ([], rest)
            end) as [fp r2].
  cbn [app]. apply SF2Prim_not_nan, round_decimal_not_nan.
Qed.

Lemma parseFloat_leading_digit (s : string) :
  has_leading_digit s = true -> JS.isNaN (JS.parseFloat s) = false.
Proof.
  intros H. unfold JS.isNaN, JS.parseFloat.
  destruct (leading_digit_cases s H)
    as [(c & r & -> & Hc) | (c & r & -> & Hc & _)].
  - change (JS.trim_start (String "-" (String c r))) with (String "-" (String c r)).
    exact (parse_unsigned_not_nan true c r Hc).
  - assert (T : JS.trim_start (String c r) = String c r).
    { simpl. destruct c as [[|] [|] [|] [|] [|] [|] [|] [|]];
        try discriminate Hc; reflexivity. }
    rewrite T.
    assert (S : match String c r with
                | String "-" r0 => (true, r0)
                | String "+" r0 => (false, r0)
                | _ => (false, String c r)
                end = (false, String c r)).
    { destruct c as [[|] [|] [|] [|] [|] [|] [|] [|]];
        try discriminate Hc; reflexivity. }
    rewrite S. exact (parse_unsigned_not_nan false c r Hc).
Qed.

(** X13: while only typing operations are used the display always parses
    as a number, so an operator entered with nothing pending always records
    that number with the operator and restarts the display at 0. *)
Theorem typed_display_parses (toLocaleString : float -> nat -> string)
  (trace : list Action) (Htrace : forallb is_typing trace = true) :
  JS.isNaN (JS.parseFloat (display (run toLocaleString trace initial))) = false /\
  (tokens (run toLocaleString trace initial) = [] ->
   forall o,
     inputOperator o (run toLocaleString trace initial) =
     mkSession "0"
       [NumToken (JS.parseFloat (display (run toLocaleString trace initial)));
        OpToken o]
       false).
Proof.
  assert (G : forall s, has_leading_digit (display s) = true ->
                        has_leading_digit (display (run toLocaleString trace s)) = true).
  { induction trace as [|a trace IH]; intros s Hs; [exact Hs|].
    simpl in Htrace. apply andb_true_iff in Htrace as [Ha Htrace].
    simpl. apply (IH Htrace).
    destruct a as [d| |o| | | | |]; simpl; try discriminate Ha.
    - now apply inputDigit_leading_digit.
    - now apply inputDecimal_leading_digit.
    - unfold inputOperator.
      destruct (JS.last_elem (tokens s)) as [[v|o']|]; try reflexivity. exact Hs.
    - now apply backspace_leading_digit.
    - reflexivity.
    - now apply toggleSign_leading_digit. }
  pose proof (parseFloat_leading_digit _ (G initial eq_refl)) as P.
  split; [exact P|].
  intros E o. unfold inputOperator. rewrite E, P. reflexivity.
Qed.

Lemma typed_display_parses_witness :
  JS.isNaN
    (JS.parseFloat
       (display (run EnUS.toLocaleString
                   [ADigit D4; ADecimal; AToggleSign; ABackspace] initial))) = false.
Proof.
  apply (typed_display_parses EnUS.toLocaleString). reflexivity.
Defined.

(** ** One binary operation, end to end *)

(** A number edit reads and writes the display and the flag only. *)
Lemma number_edit_step (toLocaleString : float -> nat -> string)
  (a : Action) (d : string) (f : bool) :
  is_number_edit a = true ->
  exists d' f',
    (f = false -> f' = false) /\
    (has_leading_digit d = true -> has_leading_digit d' = true) /\
    forall ts, step toLocaleString (mkSession d ts f) a = mkSession d' ts f'.
Proof.
  intros Ha. destruct a as [k| |o| | | | |]; try discriminate Ha.
  - exists (display (inputDigit (digit_key k) (mkSession d [] f))),
      (justEvaluated (inputDigit (digit_key k) (mkSession d [] f))).
    split; [|split].
    + intros ->. unfold inputDigit. simpl.
      destruct (d =? "0")%string; [reflexivity|].
      now destruct (d =? "-0")%string.
    + apply (inputDigit_leading_digit k (mkSession d [] f)).
    + intros ts. simpl. unfold inputDigit. simpl. destruct f; [reflexivity|].
      destruct (d =? "0")%string; [reflexivity|].
      now destruct (d =? "-0")%string.
  - exists (display (inputDecimal (mkSession d [] f))),
      (justEvaluated (inputDecimal (mkSession d [] f))).
    split; [|split].
    + intros ->. unfold inputDecimal. simpl. now destruct (negb _).
    + apply (inputDecimal_leading_digit (mkSession d [] f)).
    + intros ts. simpl. unfold inputDecimal. simpl. destruct f; [reflexivity|].
      now destruct (negb _).
  - exists (display (backspace (mkSession d [] f))), false.
    split; [reflexivity|]. split.
    + apply (backspace_leading_digit (mkSession d [] f)).
    + intros ts. simpl. unfold backspace. simpl. now destruct f.
  - exists (display (toggleSign (mkSession d [] f))), f.
    split; [now intros ->|]. split.
    + apply (toggleSign_leading_digit (mkSession d [] f)).
    + intros ts. reflexivity.
Qed.

Lemma number_edit_run (toLocaleString : float -> nat -> string)
  (trace : list Action) (d : string) (f : bool) :
  forallb is_number_edit trace = true ->
  exists d' f',
    (f = false -> f' = false) /\
    (has_leading_digit d = true -> has_leading_digit d' = true) /\
    forall ts, run toLocaleString trace (mkSession d ts f) = mkSession d' ts f'.
Proof.
  revert d f. induction trace as [|a trace IH]; intros d f H.
  - exists d, f. now repeat split.
  - simpl in H. apply andb_true_iff in H as [Ha H].
    destruct (number_edit_step toLocaleString a d f Ha) as (d1 & f1 & F1 & L1 & E1).
    destruct (IH d1 f1 H) as (d2 & f2 & F2 & L2 & E2).
    exists d2, f2. split; [auto|]. split; [auto|].
    intros ts. cbn [run fold_left].
    change (fold_left (step toLocaleString) trace) with (run toLocaleString trace).
    now rewrite E1, E2.
Qed.

(** X14: a number typed, an operator, a second number typed and = show the
    result of that operation on the two numbers as the displays parse to
    them, formatted; the pending sequence is then empty and the flag set.
    The numbers are typed with digits, the decimal point, backspace and
    sign toggle, from the initial session. *)
Theorem binary_operation (toLocaleString : float -> nat -> string)
  (first second : list Action) (o : Operator)
  (Hfirst : forallb is_number_edit first = true)
  (Hsecond : forallb is_number_edit second = true) :
  run toLocaleString (first ++ AOperator o :: second ++ [AEvaluate]) initial
  = mkSession
      (formatNumber toLocaleString
         (apply_op o
            (JS.parseFloat (display (run toLocaleString first initial)))
            (JS.parseFloat (display (run toLocaleString second initial)))))
      [] true.
Proof.
  destruct (number_edit_run toLocaleString first "0" false Hfirst)
    as (d1 & f1 & F1 & L1 & E1).
  destruct (number_edit_run toLocaleString second "0" false Hsecond)
    as (d2 & f2 & F2 & L2 & E2).
  specialize (F1 eq_refl). specialize (F2 eq_refl). subst f1 f2.
  specialize (L1 eq_refl). specialize (L2 eq_refl).
  unfold initial. rewrite !E1, !E2.
  rewrite run_app, E1. cbn [run fold_left step].
  change (fold_left (step toLocaleString) (second ++ [AEvaluate]))
    with (run toLocaleString (second ++ [AEvaluate])).
  pose proof (parseFloat_leading_digit d1 L1) as P1.
  pose proof (parseFloat_leading_digit d2 L2) as P2.
  assert (O : inputOperator o (mkSession d1 [] false)
              = mkSession "0" [NumToken (JS.parseFloat d1); OpToken o] false).
  { unfold inputOperator. simpl. now rewrite P1. }
  rewrite O, run_app, E2. cbn [run fold_left step].
  unfold evaluate. simpl. rewrite P2. simpl.
  destruct o; reflexivity.
Qed.

Lemma binary_operation_witness :
  run EnUS.toLocaleString
    ([ADigit D7; ADecimal; ADigit D5] ++ AOperator Minus
       :: [ADigit D2; AToggleSign] ++ [AEvaluate]) initial
  = mkSession
      (formatNumber EnUS.toLocaleString
         (apply_op Minus
            (JS.parseFloat
               (display (run EnUS.toLocaleString [ADigit D7; ADecimal; ADigit D5] initial)))
            (JS.parseFloat
               (display (run EnUS.toLocaleString [ADigit D2; AToggleSign] initial)))))
      [] true.
Proof.
  apply (binary_operation EnUS.toLocaleString); reflexivity.
Defined.

(** ** Not-a-number *)

Lemma Prim2SF_nan_eq (x : float) : Prim2SF x = S754_nan -> x = nan.
Proof. intros H. now apply Prim2SF_inj. Qed.

Lemma apply_op_nan_left (o : Operator) (x : float) : apply_op o nan x = nan.
Proof.
  destruct o; simpl.
  - apply Prim2SF_nan_eq. rewrite add_spec. reflexivity.
  - apply Prim2SF_nan_eq. rewrite sub_spec. reflexivity.
  - apply Prim2SF_nan_eq. rewrite mul_spec. reflexivity.
  - destruct (PrimFloat.eqb x 0); [reflexivity|].
    apply Prim2SF_nan_eq. rewrite div_spec. reflexivity.
Qed.

Lemma apply_op_nan_right (o : Operator) (x : float) : apply_op o x nan = nan.
Proof.
  destruct o; simpl.
  - apply Prim2SF_nan_eq. rewrite add_spec.
    change (Prim2SF nan) with S754_nan. now destruct (Prim2SF x) as [[|]|[|]| |[|] m e].
  - apply Prim2SF_nan_eq. rewrite sub_spec.
    change (Prim2SF nan) with S754_nan. now destruct (Prim2SF x) as [[|]|[|]| |[|] m e].
  - apply Prim2SF_nan_eq. rewrite mul_spec.
    change (Prim2SF nan) with S754_nan. now destruct (Prim2SF x) as [[|]|[|]| |[|] m e].
  - change (PrimFloat.eqb nan 0) with false. cbv iota.
    apply Prim2SF_nan_eq. rewrite div_spec.
    change (Prim2SF nan) with S754_nan. now destruct (Prim2SF x) as [[|]|[|]| |[|] m e].
Qed.

Lemma infix_eval_nan_sum (rest : list (Operator * float)) (o : Operator)
  (term : float) :
  infix_eval (Some (nan, o)) term rest = nan.
Proof.
  revert o term. induction rest as [|[o' n] rest IH]; intros o term.
  - apply apply_op_nan_left.
  - simpl. destruct o'; try apply IH;
      rewrite apply_op_nan_left; apply IH.
Qed.

Lemma infix_eval_nan_term (rest : list (Operator * float))
  (pending : option (float * Operator)) :
  infix_eval pending nan rest = nan.
Proof.
  assert (C : close_term pending nan = nan).
  { destruct pending as [[s o]|]; [apply apply_op_nan_right | reflexivity]. }
  revert pending C. induction rest as [|[o n] rest IH]; intros pending C.
  - exact C.
  - simpl. destruct o.
    + rewrite C. apply infix_eval_nan_sum.
    + rewrite C. apply infix_eval_nan_sum.
    + rewrite apply_op_nan_left. now apply IH.
    + rewrite apply_op_nan_left. now apply IH.
Qed.

Lemma infix_evaluation (n0 : float) (rest : list (Operator * float)) :
  evalRPN (toRPN (infix_tokens n0 rest)) = infix_value n0 rest.
Proof.
  assert (E : eval_stack (toRPN (infix_tokens n0 rest)) [] = Some [infix_value n0 rest]).
  { unfold toRPN, infix_tokens, infix_value. cbn [fold_left toRPN_body].
    apply (toRPN_loop_infix rest (JS.push [] (NumToken n0)) [] None n0).
    now apply ys_term. }
  rewrite evalRPN_eval_stack, E. reflexivity.
Qed.

(** X15: a division by zero anywhere in an infix expression makes its value
    NaN, whatever stands before and after it, and [formatNumber] shows
    Error. *)
Theorem division_by_zero_poisons (toLocaleString : float -> nat -> string)
  (n0 z : float) (before after : list (Operator * float))
  (Hz : PrimFloat.eqb z 0 = true) :
  evalRPN (toRPN (infix_tokens n0 (before ++ (Divide, z) :: after))) = nan /\
  formatNumber toLocaleString
    (evalRPN (toRPN (infix_tokens n0 (before ++ (Divide, z) :: after)))) = "Error".
Proof.
  assert (E : evalRPN (toRPN (infix_tokens n0 (before ++ (Divide, z) :: after))) = nan).
  { rewrite infix_evaluation. unfold infix_value.
    generalize (@None (float * Operator)) as pending. generalize n0 as term.
    induction before as [|[o n] before IH]; intros term pending.
    - simpl. rewrite Hz. apply infix_eval_nan_term.
    - simpl. destruct o; apply IH. }
  split; [exact E | now rewrite E].
Qed.

Lemma division_by_zero_poisons_witness :
  evalRPN (toRPN (infix_tokens 1 ([(Plus, 2%float)] ++ (Divide, 0%float)
                                    :: [(Times, 3%float)]))) = nan.
Proof.
  apply (division_by_zero_poisons EnUS.toLocaleString 1 0 [(Plus, 2%float)]
           [(Times, 3%float)]).
  reflexivity.
Defined.

(** ** After a result *)

(** X16: the keys right after [evaluate], whatever the session was.  A
    digit replaces the display by that digit, the decimal point by 0., and
    backspace gives the initial session: the flag is reset and nothing is
    pending.  Sign toggle and percent do not test the flag: they rewrite the
    text of the result in place and leave the flag set. *)
Theorem keys_after_result (toLocaleString : float -> nat -> string)
  (s : Session) (d : Digit) :
  inputDigit (digit_key d) (evaluate toLocaleString s)
  = mkSession (digit_key d) [] false /\
  inputDecimal (evaluate toLocaleString s) = mkSession "0." [] false /\
  backspace (evaluate toLocaleString s) = initial /\
  toggleSign (evaluate toLocaleString s)
  = mkSession
      (let r := display (evaluate toLocaleString s) in
       if JS.startsWith "-" r then JS.slice_from_1 r
       else if (r =? "0")%string then r else ("-" ++ r)%string)
      [] true /\
  percent (evaluate toLocaleString s)
  = mkSession
      (let r := display (evaluate toLocaleString s) in
       if JS.isNaN (JS.parseFloat r) then r
       else JS.numberToString (PrimFloat.div (JS.parseFloat r) 100))
      [] true.
Proof.
  unfold evaluate, percent.
  destruct (match JS.last_elem _ with Some (OpToken _) => _ | _ => _ end);
    cbn [display tokens justEvaluated];
    (split; [reflexivity|]); (split; [reflexivity|]); (split; [reflexivity|]);
    (split; [reflexivity|]);
    match goal with
    | |- context [JS.isNaN ?v] => now destruct (JS.isNaN v)
    end.
Qed.

(** An instance on an en-US host: after 1 2 + 3 = the display is 15; sign
    toggle turns it into -15 and percent into 0.15, the flag staying set. *)
Example result_edited_in_place :
  toggleSign (run EnUS.toLocaleString
                [ADigit D1; ADigit D2; AOperator Plus; ADigit D3; AEvaluate] initial)
  = mkSession "-15" [] true /\
  percent (run EnUS.toLocaleString
             [ADigit D1; ADigit D2; AOperator Plus; ADigit D3; AEvaluate] initial)
  = mkSession "0.15" [] true.
Proof. split; reflexivity. Qed.
